(** * MONAIfbs: the dynUNet training script, [monai_dynunet_training.py]

    A shallow embedding of the script's own logic (everything that is not a
    call into MONAI or PyTorch) and the properties of it that the design
    document states:

    - [create_data_list_of_dictionaries]: the two-column file list;
    - [choose_loss_function]: the loss lookup;
    - the optional keys of the configuration read by [run_training];
    - the kernel/stride schedule loop of [run_training];
    - the two [_iteration] overrides, [DynUNetEvaluator] and [DynUNetTrainer].

    Conventions of the embedding.
    - Python numbers that the script computes with (spacings, sizes, losses)
      are rationals [Q]: the schedule loop only halves sizes, doubles
      spacings and compares a quotient with 2, which binary floating point
      does exactly on sizes and spacings of ordinary magnitude (no overflow,
      integers below 2^53).  What is proved of the numbers that the loop
      computes is stated for inputs [in_range], up to 2^53 in magnitude;
      what holds of the loop whatever its arithmetic (the shape of the two
      lists) is stated for all inputs.  Losses are summed in exact
      arithmetic.
    - A Python exception is a constructor of [exn]; a call that can raise
      returns a [result]; [exit()] is the outcome [Exit].
    - A [while True] loop is a function with fuel, returning [None] when the
      fuel runs out; termination is proved as "some fuel suffices". *)

From Stdlib Require Import QArith Qminmax Qround Qpower Lia Lqa Ascii String.
From stdpp Require Import base strings list gmap.

Open Scope Q_scope.

(** ** Part I. The embedding *)

(** *** Python outcomes *)

Module Py.

(** The values a YAML configuration holds. *)
#[local] Unset Elimination Schemes.
Inductive value : Type :=
| VNone
| VBool (b : bool)
| VInt (n : Z)
| VFloat (x : Q)
| VStr (s : string)
| VList (l : list value).
#[local] Set Elimination Schemes.

(** [v is None]. *)
Definition is_none (v : value) : bool :=
  match v with VNone => true | _ => false end.

(** [v == s] for a string literal [s]. *)
Definition eq_str (v : value) (s : string) : bool :=
  match v with VStr x => String.eqb x s | _ => false end.

(** What a [FileNotFoundError] of the script reports as missing. *)
Inductive missing : Type :=
| Missing_image_or_segmentation (current_f current_s : string)
| Missing_model (model_to_load : value).

(** The exceptions the script raises itself or provokes in the interpreter. *)
Inductive exn : Type :=
| KeyError (key : string)
| TypeError
| ValueError
| ZeroDivisionError
| AttributeError
| OSError (path : string)
| IOError (msg : string)
| FileNotFoundError (what : missing)
| Exception (msg : string).

(** The two messages the script prints before it calls [exit()]: the
    [ValueError] of unpacking [fields] values into two names, and the
    expected format of the named file. *)
Inductive message : Type :=
| ValueError_in_function (fields : nat)
| Incorrect_format_for_file (input_file : string).

(** Outcome of a call: a value, an exception travelling to the caller, or
    the interpreter leaving through [exit()], with the diagnostics printed
    on the way out. *)
Inductive result (A : Type) : Type :=
| Ok (a : A)
| Raise (e : exn)
| Exit (printed : list message).
Arguments Ok {A} a.
Arguments Raise {A} e.
Arguments Exit {A} printed.

Definition bind {A B : Type} (f : A → result B) (m : result A) : result B :=
  match m with
  | Ok a => f a
  | Raise e => Raise e
  | Exit out => Exit out
  end.

(** The two ways a call does not return. *)
Inductive failure : Type :=
| Raised (e : exn)
| Exited (printed : list message).

Definition fails {A : Type} (f : failure) : result A :=
  match f with
  | Raised e => Raise e
  | Exited printed => Exit printed
  end.

#[export] Instance result_ret : MRet result := @Ok.
#[export] Instance result_bind : MBind result := @bind.

(** [d[k]] on a dict. *)
Definition getitem {V : Type} (d : gmap string V) (k : string) : result V :=
  match d !! k with
  | Some v => Ok v
  | None => Raise (KeyError k)
  end.

(** [len(v)]. *)
Definition len (v : value) : result nat :=
  match v with
  | VList l => Ok (length l)
  | VStr s => Ok (String.length s)
  | _ => Raise TypeError
  end.

(** [v + l] for a list literal [l]. *)
Definition add_list (v : value) (l : list value) : result value :=
  match v with
  | VList l0 => Ok (VList (l0 ++ l))
  | _ => Raise TypeError
  end.

(** A value where a [str] is required. *)
Definition as_str (v : value) : result string :=
  match v with
  | VStr s => Ok s
  | _ => Raise TypeError
  end.

(** [min(l)]: the first of the smallest elements. *)
Definition min (l : list Q) : result Q :=
  match l with
  | [] => Raise ValueError
  | x :: xs => Ok (fold_left (λ m y, if Qle_bool m y then m else y) xs x)
  end.

(** [a / b] on numbers. *)
Definition truediv (a b : Q) : result Q :=
  if Qeq_bool b 0 then Raise ZeroDivisionError else Ok (a / b).

(** [all(x == 1 for x in l)]. *)
Definition all_eq_1 (l : list Z) : bool := forallb (Z.eqb 1) l.

End Py.
Import Py.

(** *** The kernel/stride schedule of [run_training] *)

(** [[sp / min(spacings) for sp in spacings]]: [min] is evaluated once per
    element, so not at all on an empty list. *)
Definition spacing_ratio (spacings : list Q) : result (list Q) :=
  mapM (λ sp, m ← Py.min spacings; truediv sp m) spacings.

(** [2 if ratio <= 2 and size >= 8 else 1]. *)
Definition stride_elt (ratio size : Q) : Z :=
  if Qle_bool ratio 2 && Qle_bool 8 size then 2%Z else 1%Z.

(** [3 if ratio <= 2 else 1]. *)
Definition kernel_elt (ratio : Q) : Z :=
  if Qle_bool ratio 2 then 3%Z else 1%Z.

Definition stride_of (ratios sizes : list Q) : list Z :=
  zip_with stride_elt ratios sizes.

Definition kernel_of (ratios : list Q) : list Z := map kernel_elt ratios.

(** [[i / j for i, j in zip(sizes, stride)]]; [j] is 1 or 2. *)
Definition next_sizes (sizes : list Q) (stride : list Z) : list Q :=
  zip_with (λ i j, i / inject_Z j) sizes stride.

(** [[i * j for i, j in zip(spacings, stride)]]. *)
Definition next_spacings (spacings : list Q) (stride : list Z) : list Q :=
  zip_with (λ i j, i * inject_Z j) spacings stride.

(** The [while True] loop: the state is [spacings], [sizes] and the two
    lists being appended to; it returns the state at [break]. *)
Fixpoint schedule_loop (fuel : nat) (spacings sizes : list Q)
    (strides kernels : list (list Z))
  : option (result (list Q * list (list Z) * list (list Z))) :=
  match fuel with
  | O => None
  | S fuel' =>
      match spacing_ratio spacings with
      | Ok ratios =>
          let stride := stride_of ratios sizes in
          let kernel := kernel_of ratios in
          if all_eq_1 stride then Some (Ok (spacings, strides, kernels))
          else schedule_loop fuel' (next_spacings spacings stride)
                 (next_sizes sizes stride)
                 (strides ++ [stride]) (kernels ++ [kernel])
      | Raise e => Some (Raise e)
      | Exit out => Some (Exit out)
      end
  end.

(** The loop followed by [strides.insert(0, len(spacings) * [1])] and
    [kernels.append(len(spacings) * [3])]. *)
Definition derive_schedule (fuel : nat) (spacings sizes : list Q)
  : option (result (list (list Z) * list (list Z))) :=
  match schedule_loop fuel spacings sizes [] [] with
  | Some (Ok (spacings', strides, kernels)) =>
      Some (Ok (replicate (length spacings') 1%Z :: strides,
                kernels ++ [replicate (length spacings') 3%Z]))
  | Some (Raise e) => Some (Raise e)
  | Some (Exit out) => Some (Exit out)
  | None => None
  end.

(** How many more times an axis of this size can be halved while it is at
    least 8: the loop's variant. *)
Definition halvings (size : Q) : nat := Z.to_nat (Z.log2 (Qfloor size)).

Definition sizes_measure (sizes : list Q) : nat :=
  foldr (λ s n, (halvings s + n)%nat) O sizes.

Definition schedule_fuel (sizes : list Q) : nat := S (sizes_measure sizes).

(** [spacings = spacing[:2]], [sizes = patch_size[:2]] and the schedule,
    with fuel that always suffices. *)
Definition network_schedule (spacing patch_size : list Q)
  : option (result (list (list Z) * list (list Z))) :=
  let spacings := take 2 spacing in
  let sizes := take 2 patch_size in
  derive_schedule (schedule_fuel sizes) spacings sizes.

(** The magnitudes on which Python computes the loop as the rationals do.
    A number of the script is an [int] or a binary64 [float].  Up to 2^53
    the two agree on every operation of the loop: the conversion of an [int]
    to [float] is exact; a size is halved only while it is at least 8 and a
    spacing is doubled once per halving, at most 51 times, so that both are
    exact and far from the largest [float]; and the rounding of the quotient
    [sp / min(spacings)] never moves it across 2, the only number it is
    compared with ([spacings_stay_finite] below bounds the levels and the
    spacings).  Beyond that range an [int] is rounded when it is divided
    or raises [OverflowError], and a doubled spacing can become [inf]; the
    properties of the numbers computed are stated within the range. *)
Definition exact_bound : Q := inject_Z (2 ^ 53).

Definition in_range (x : Q) : Prop := - exact_bound <= x ∧ x <= exact_bound.

(** The per-level rule in the words of the design document, for two axes. *)
Section PerLevelRule.

Definition rule_ratio (sp0 sp1 : Q) (sp : Q) : Q := sp / Qmin sp0 sp1.

Definition rule_stride (ratio size : Q) (s : Z) : Prop :=
  (ratio <= 2 ∧ 8 <= size ∧ s = 2%Z) ∨ (¬ (ratio <= 2 ∧ 8 <= size) ∧ s = 1%Z).

Definition rule_kernel (ratio : Q) (k : Z) : Prop :=
  (ratio <= 2 ∧ k = 3%Z) ∨ (¬ ratio <= 2 ∧ k = 1%Z).

(** [rule_levels (sp0, sp1) (sz0, sz1) strides kernels]: starting from
    these spacings and sizes, [strides] and [kernels] list the levels up
    to, and without, the first level whose stride is all 1s. *)
Inductive rule_levels : Q * Q → Q * Q → list (list Z) → list (list Z) → Prop :=
| rule_stop sp0 sp1 sz0 sz1 :
    rule_stride (rule_ratio sp0 sp1 sp0) sz0 1 →
    rule_stride (rule_ratio sp0 sp1 sp1) sz1 1 →
    rule_levels (sp0, sp1) (sz0, sz1) [] []
| rule_level sp0 sp1 sz0 sz1 s0 s1 k0 k1 strides kernels :
    rule_stride (rule_ratio sp0 sp1 sp0) sz0 s0 →
    rule_stride (rule_ratio sp0 sp1 sp1) sz1 s1 →
    rule_kernel (rule_ratio sp0 sp1 sp0) k0 →
    rule_kernel (rule_ratio sp0 sp1 sp1) k1 →
    ¬ (s0 = 1%Z ∧ s1 = 1%Z) →
    rule_levels (sp0 * inject_Z s0, sp1 * inject_Z s1)
                (sz0 / inject_Z s0, sz1 / inject_Z s1) strides kernels →
    rule_levels (sp0, sp1) (sz0, sz1) ([s0; s1] :: strides) ([k0; k1] :: kernels).

End PerLevelRule.

(** *** Strings, as the script uses them *)

Module Str.

Definition newline : ascii := "010"%char.
Definition comma : ascii := ","%char.

(** [c in s]. *)
Fixpoint contains (c : ascii) (s : string) : bool :=
  match s with
  | EmptyString => false
  | String x s' => Ascii.eqb x c || contains c s'
  end.

(** [s.rstrip(c)]: [s] without its trailing run of [c]. *)
Fixpoint rstrip (c : ascii) (s : string) : string :=
  match s with
  | EmptyString => EmptyString
  | String x s' =>
      match rstrip c s' with
      | EmptyString => if Ascii.eqb x c then EmptyString else String x EmptyString
      | r => String x r
      end
  end.

(** [s.split(c)]: the fields between the occurrences of [c]; never empty. *)
Fixpoint split (c : ascii) (s : string) : list string :=
  match s with
  | EmptyString => [EmptyString]
  | String x s' =>
      if Ascii.eqb x c then EmptyString :: split c s'
      else match split c s' with
           | f :: fs => String x f :: fs
           | [] => [String x EmptyString]
           end
  end.

(** [os.path.join(a, b)] on POSIX paths. *)
Definition path_join (a b : string) : string :=
  match b with
  | String "/"%char _ => b
  | _ =>
      if String.eqb a "" || String.eqb (String.substring (String.length a - 1) 1 a) "/"
      then a +:+ b
      else a +:+ "/" +:+ b
  end.

(** The number of occurrences of [c] in [s]. *)
Fixpoint count (c : ascii) (s : string) : nat :=
  match s with
  | EmptyString => O
  | String x s' => ((if Ascii.eqb x c then 1 else 0) + count c s')%nat
  end.

(** The part of [s] before its first [c] (all of [s] if there is none). *)
Fixpoint before (c : ascii) (s : string) : string :=
  match s with
  | EmptyString => EmptyString
  | String x s' => if Ascii.eqb x c then EmptyString else String x (before c s')
  end.

(** The part of [s] after its first [c] (empty if there is none). *)
Fixpoint after (c : ascii) (s : string) : string :=
  match s with
  | EmptyString => EmptyString
  | String x s' => if Ascii.eqb x c then s' else after c s'
  end.

End Str.

(** *** The file system and the clock, as far as the script consults them *)

Record os : Type := {
  (** [os.path.isfile] *)
  isfile : string → bool;
  (** the lines that iterating over [open(path, 'r')] yields, if it opens *)
  readlines : string → option (list string);
  (** [os.path.exists], on whatever the configuration holds *)
  path_exists : value → result bool;
  (** [Path(v).mkdir(parents=True, exist_ok=True)] *)
  mkdir : value → result ();
  (** [datetime.now().strftime('%Y-%m-%d_%H-%M-%S')] *)
  now : string;
}.

(** *** [create_data_list_of_dictionaries] *)

(** What the [except ValueError] handler prints before [exit()]. *)
Definition exit_diagnostic (fields : nat) (input_file : string) : list message :=
  [ValueError_in_function fields; Incorrect_format_for_file input_file].

(** [line.rstrip('\n') if '\n' in line else line]. *)
Definition strip_line (line : string) : string :=
  if Str.contains Str.newline line then Str.rstrip Str.newline line else line.

(** [{"image": current_f, "label": current_s}]. *)
Definition entry (current_f current_s : string) : gmap string string :=
  {[ "image" := current_f; "label" := current_s ]}.

(** The body of [for line in data], with [full_list] as built so far. *)
Fixpoint read_entries (fs : os) (input_file : string) (data : list string)
    (full_list : list (gmap string string)) : result (list (gmap string string)) :=
  match data with
  | [] => Ok full_list
  | line :: data' =>
      let line := strip_line line in
      match Str.split Str.comma line with
      | [current_f; current_s] =>
          if isfile fs current_f && isfile fs current_s
          then read_entries fs input_file data' (full_list ++ [entry current_f current_s])
          else Raise (FileNotFoundError (Missing_image_or_segmentation current_f current_s))
      | fields => Exit (exit_diagnostic (length fields) input_file)
      end
  end.

Definition create_data_list_of_dictionaries (fs : os) (input_file : string)
  : result (list (gmap string string)) :=
  match readlines fs input_file with
  | Some data => read_entries fs input_file data []
  | None => Raise (OSError input_file)
  end.

(** A line that the loop of [create_data_list_of_dictionaries] passes, in
    the words of the design document: stripped of its trailing newlines it
    has exactly one comma, and the paths before and after it are files. *)
Definition passes (fs : os) (line : string) : Prop :=
  let l := Str.rstrip Str.newline line in
  Str.count Str.comma l = 1%nat
  ∧ isfile fs (Str.before Str.comma l) = true
  ∧ isfile fs (Str.after Str.comma l) = true.

(** The pair such a line stands for. *)
Definition entry_of (line : string) : gmap string string :=
  let l := Str.rstrip Str.newline line in
  entry (Str.before Str.comma l) (Str.after Str.comma l).

(** A small file system for the examples: four image files and three lists,
    one well formed, one with a line of three fields, one naming a file
    that is not there. *)
Definition example_train_lines : list string :=
  ["i0.nii,s0.nii" +:+ String Str.newline EmptyString; "i1.nii,s1.nii"].

Definition example_malformed_lines : list string :=
  ["i0.nii,s0.nii" +:+ String Str.newline EmptyString;
   "i1.nii,s1.nii,extra" +:+ String Str.newline EmptyString;
   "i1.nii,s1.nii"].

Definition example_missing_lines : list string :=
  ["i0.nii,s0.nii" +:+ String Str.newline EmptyString; "i9.nii,s1.nii"].

Definition example_sys : os := {|
  isfile := λ p, bool_decide (p ∈ ["i0.nii"; "s0.nii"; "i1.nii"; "s1.nii"]);
  readlines := λ p,
    if String.eqb p "train.txt" then Some example_train_lines
    else if String.eqb p "malformed.txt" then Some example_malformed_lines
    else if String.eqb p "missing.txt" then Some example_missing_lines
    else None;
  path_exists := λ _, Ok false;
  mkdir := λ _, Ok ();
  now := "2020-11-01_12-00-00";
|}.

(** *** [choose_loss_function] *)

(** The loss object built, as the constructor call that builds it: the
    keyword arguments the script passes.  [DiceCELoss] is called with [pow]
    and, in one branch only, [batch_version]. *)
Inductive loss_fn : Type :=
| DiceCELoss (batch_version : option bool) (pow : value)
| DiceLossExtended (sigmoid softmax : bool) (smooth_num smooth_den : value)
    (squared_pred batch_version : bool).

(** Modelled from the spec: the default of the keyword [batch_version] of
    [DiceCELoss], a class of monaifbs/src/utils/custom_losses.py, which is
    not among the sources; without the keyword the loss is the plain
    Dice + cross-entropy, as the log line of that branch also reports. *)
Definition DiceCELoss_default_batch_version : bool := false.

(** The activation arguments of a call, if it has any. *)
Inductive activation : Type := Sigmoid | Softmax | Neither | Both.

Definition activation_of (l : loss_fn) : option activation :=
  match l with
  | DiceCELoss _ _ => None
  | DiceLossExtended true false _ _ _ _ => Some Sigmoid
  | DiceLossExtended false true _ _ _ _ => Some Softmax
  | DiceLossExtended false false _ _ _ _ => Some Neither
  | DiceLossExtended true true _ _ _ _ => Some Both
  end.

Definition batch_version_of (l : loss_fn) : bool :=
  match l with
  | DiceCELoss (Some b) _ => b
  | DiceCELoss None _ => DiceCELoss_default_batch_version
  | DiceLossExtended _ _ _ _ _ b => b
  end.

(** [pow = 1.0], replaced by [config_dict['training']['pow_dice']] if that
    key is there. *)
Definition pow_of (training : gmap string value) : value :=
  match training !! "pow_dice" with
  | Some v => v
  | None => VFloat 1
  end.

Definition choose_loss_function (number_out_channels : Z)
    (config_dict : gmap string (gmap string value)) : result loss_fn :=
  let '(do_sigmoid, do_softmax) :=
    if (1 <? number_out_channels)%Z then (false, true) else (true, false) in
  training ← getitem config_dict "training";
  let pow := pow_of training in
  loss_type ← getitem training "loss_type";
  if eq_str loss_type "dynDiceCELoss" then
    Ok (DiceCELoss None pow)
  else if eq_str loss_type "dynDiceCELoss_batch" then
    let batch_version := true in
    Ok (DiceCELoss (Some batch_version) pow)
  else if eq_str loss_type "Batch_Dice" then
    let smooth_num := VFloat (1 # 100000) in
    let smooth_den := smooth_num in
    let batch_version := true in
    let squared_pred := false in
    Ok (DiceLossExtended do_sigmoid do_softmax smooth_num smooth_den
          squared_pred batch_version)
  else if eq_str loss_type "Dice_Only" then
    let smooth_num := VInt 0 in
    let smooth_den := smooth_num in
    let batch_version := false in
    let squared_pred := false in
    Ok (DiceLossExtended do_sigmoid do_softmax smooth_num smooth_den
          squared_pred batch_version)
  else Raise (IOError "Unrecognized loss type").

(** The four loss types the function knows, and the configured one. *)
Definition recognized_loss_types : list string :=
  ["dynDiceCELoss"; "dynDiceCELoss_batch"; "Batch_Dice"; "Dice_Only"].

Definition configured_loss_type (config_dict : gmap string (gmap string value))
  : option value :=
  training ← config_dict !! "training"; training !! "loss_type".

(** *** [run_training]: reading the configuration and the file lists *)

(** [seg_labels], from the key of that name or [[1]]. *)
Definition seg_labels_of (training : gmap string value) : value :=
  match training !! "seg_labels" with
  | Some v => v
  | None => VList [VInt 1]
  end.

(** [model_to_load]: the configured model if there is one and it is not
    [None], which then has to exist. *)
Definition model_to_load_of (sys : os) (training : gmap string value) : result value :=
  match training !! "model_to_load" with
  | Some v =>
      if is_none v then Ok VNone
      else
        path_exists sys v ≫= λ found : bool,
          if found then Ok v else Raise (FileNotFoundError (Missing_model v))
  | None => Ok VNone
  end.

(** [seed]. *)
Definition seed_of (training : gmap string value) : value :=
  match training !! "manual_seed" with
  | Some v => if is_none v then VNone else v
  | None => VNone
  end.

(** The calls of [set_determinism] made: one, with the seed, if the seed is
    not [None]. *)
Definition set_determinism_calls (seed : value) : list value :=
  if is_none seed then [] else [seed].

(** [out_model_dir]: [out_dir] joined with the time stamp, ['_'] and the
    postfix. *)
Definition out_model_dir_of (sys : os) (output : gmap string value) : result string :=
  out_dir ← getitem output "out_dir";
  out_postfix ← getitem output "out_postfix";
  out_postfix ← as_str out_postfix;
  out_dir ← as_str out_dir;
  Ok (Str.path_join out_dir (now sys +:+ "_" +:+ out_postfix)).

(** [out_cache_dir]. *)
Definition out_cache_dir_of (output : gmap string value) (out_model_dir : string) : value :=
  match output !! "cache_dir" with
  | Some v => v
  | None => VStr (Str.path_join out_model_dir "persistent_cache")
  end.

(** The local variables of [run_training] that come from the configuration. *)
Record configuration : Type := {
  seg_labels : value;
  nr_out_channels : nat;
  patch_size : value;
  spacing : value;
  model_to_load : value;
  seed : value;
  determinism : list value;
  out_model_dir : string;
  out_cache_dir : value;
}.

(** [run_training] from its first statement to the creation of the cache
    directory.  Printing and the calls into MONAI and PyTorch in between are
    left out: they are taken to return. *)
Definition read_configuration (sys : os)
    (config_info : gmap string (gmap string value)) : result configuration :=
  training ← getitem config_info "training";
  let seg_labels := seg_labels_of training in
  nr_out_channels ← len seg_labels;
  inplane_size ← getitem training "inplane_size";
  patch_size ← add_list inplane_size [VInt 1];
  spacing ← getitem training "spacing";
  model_to_load ← model_to_load_of sys training;
  let seed := seed_of training in
  let determinism := set_determinism_calls seed in
  output ← getitem config_info "output";
  out_model_dir ← out_model_dir_of sys output;
  let out_cache_dir := out_cache_dir_of output out_model_dir in
  _ ← mkdir sys out_cache_dir;
  Ok {| seg_labels := seg_labels; nr_out_channels := nr_out_channels;
        patch_size := patch_size; spacing := spacing;
        model_to_load := model_to_load; seed := seed;
        determinism := determinism; out_model_dir := out_model_dir;
        out_cache_dir := out_cache_dir |}.

(** [run_training] up to the two file lists: no statement of it, and none of
    the main block that calls it, is inside a [try]. *)
Record setup : Type := {
  config : configuration;
  train_files : list (gmap string string);
  val_files : list (gmap string string);
}.

Definition run_training_setup (sys : os) (train_file_list valid_file_list : string)
    (config_info : gmap string (gmap string value)) : result setup :=
  config ← read_configuration sys config_info;
  train_files ← create_data_list_of_dictionaries sys train_file_list;
  val_files ← create_data_list_of_dictionaries sys valid_file_list;
  Ok {| config := config; train_files := train_files; val_files := val_files |}.

(** The handlers of the trainer: the checkpoint loader is appended only for
    a model to load. *)
Inductive handler : Type :=
| LrScheduleHandler
| ValidationHandler
| StatsHandler
| TensorBoardStatsHandler
| CheckpointSaver
| CheckpointLoader (load_path : value).

Definition train_handlers (model_to_load : value) : list handler :=
  let train_handlers :=
    [LrScheduleHandler; ValidationHandler; StatsHandler;
     TensorBoardStatsHandler; CheckpointSaver] in
  if is_none model_to_load then train_handlers
  else train_handlers ++ [CheckpointLoader model_to_load].

(** Configurations for the examples: one per loss type, with none of the
    optional keys. *)
Definition example_config (loss_type : string) : gmap string (gmap string value) :=
  {[ "training" := {[ "loss_type" := VStr loss_type;
                      "inplane_size" := VList [VInt 64; VInt 64];
                      "spacing" := VList [VFloat 1; VFloat 1] ]};
     "output" := {[ "out_dir" := VStr "out"; "out_postfix" := VStr "monai_dynUnet_2D" ]} ]}.

(** *** Tensors, as far as the two [_iteration] overrides handle them *)

(** A tensor is a number or a sequence of tensors along its first
    dimension; the operations below are those of PyTorch on tensors of one
    shape. *)
#[local] Unset Elimination Schemes.
Inductive tensor : Type :=
| Scalar (x : Q)
| Tensor (items : list tensor).
#[local] Set Elimination Schemes.

Fixpoint tensor_induction (P : tensor → Prop)
    (HScalar : ∀ x, P (Scalar x))
    (HTensor : ∀ items, Forall P items → P (Tensor items))
    (t : tensor) : P t :=
  match t with
  | Scalar x => HScalar x
  | Tensor items =>
      HTensor items
        ((fix go (l : list tensor) : Forall P l :=
            match l with
            | [] => Forall_nil_2 P
            | x :: l' => Forall_cons_2 P x l' (tensor_induction P HScalar HTensor x) (go l')
            end) items)
  end.

(** [t.shape]. *)
Fixpoint shape (t : tensor) : list nat :=
  match t with
  | Scalar _ => []
  | Tensor [] => [O]
  | Tensor ((x :: _) as items) => length items :: shape x
  end.

(** [torch.flip(t, dims)], seen from dimension [depth]: the order along
    every dimension listed in [dims] is reversed. *)
Fixpoint flip_from (depth : nat) (dims : list nat) (t : tensor) : tensor :=
  match t with
  | Scalar x => Scalar x
  | Tensor items =>
      let items' := flip_from (S depth) dims <$> items in
      Tensor (if bool_decide (depth ∈ dims) then reverse items' else items')
  end.

Definition flip (t : tensor) (dims : list nat) : tensor := flip_from 0 dims t.

(** [a + b], element by element. *)
Fixpoint tensor_add (a b : tensor) : tensor :=
  match a, b with
  | Scalar x, Scalar y => Scalar (x + y)
  | Tensor xs, Tensor ys => Tensor (zip_with tensor_add xs ys)
  | _, _ => a
  end.

(** [a / n] for a number [n]. *)
Fixpoint tensor_div (a : tensor) (n : Q) : tensor :=
  match a with
  | Scalar x => Scalar (x / n)
  | Tensor xs => Tensor ((λ x, tensor_div x n) <$> xs)
  end.

(** *** [DynUNetEvaluator._iteration] *)

Section Evaluator.

(** The engine's network and inferer, [self.inferer(inputs, self.network)],
    and its [prepare_batch]. *)
Context {network batch : Type}.
Context (inferer : tensor → network → tensor).
Context (prepare_batch : batch → tensor * tensor).

(** What [_iteration] returns: [{"image": ..., "label": ..., "pred": ...}]. *)
Record evaluation : Type := {
  image : tensor;
  label : tensor;
  pred : tensor;
}.

Definition _compute_pred (self_network : network)
    (inputs flip_inputs_1 flip_inputs_2 flip_inputs_3 : tensor) : tensor :=
  let pred := inferer inputs self_network in
  let flip_pred_1 := flip (inferer flip_inputs_1 self_network) [2%nat] in
  let flip_pred_2 := flip (inferer flip_inputs_2 self_network) [3%nat] in
  let flip_pred_3 := flip (inferer flip_inputs_3 self_network) [2%nat; 3%nat] in
  tensor_div
    (tensor_add (tensor_add (tensor_add pred flip_pred_1) flip_pred_2) flip_pred_3)
    4.

Definition evaluator_iteration (self_network : network) (self_amp : bool)
    (batchdata : batch) : evaluation :=
  let '(inputs, targets) := prepare_batch batchdata in
  let flip_inputs_1 := flip inputs [2%nat] in
  let flip_inputs_2 := flip inputs [3%nat] in
  let flip_inputs_3 := flip inputs [2%nat; 3%nat] in
  let predictions :=
    if self_amp
    then _compute_pred self_network inputs flip_inputs_1 flip_inputs_2 flip_inputs_3
    else _compute_pred self_network inputs flip_inputs_1 flip_inputs_2 flip_inputs_3 in
  {| image := inputs; label := targets; pred := predictions |}.

End Evaluator.

(** *** [DynUNetTrainer._iteration] *)

Section Trainer.

(** [self.loss_function], with a number as its value, and
    [torch.nn.functional.interpolate]. *)
Context (loss_function : tensor → tensor → Q).
Context (interpolate : tensor → list nat → tensor).

(** [sum(l)]: from 0, left to right. *)
Definition py_sum (l : list Q) : Q := fold_left Qplus l 0.

Definition _compute_loss (preds : list tensor) (label : tensor) : Q :=
  let labels :=
    [label] ++ ((λ pred, interpolate label (drop 2 (shape pred))) <$> drop 1 preds) in
  py_sum (imap (λ i '(p, l), (1 # 2) ^ Z.of_nat i * loss_function p l)
            (zip preds labels)).

(** The loss of one iteration.  With [amp] and a scaler it is the sum
    itself; otherwise [.mean()] is taken of it, which a number keeps and
    which the [0] that [sum] returns for no heads does not have. *)
Definition trainer_loss (self_amp has_scaler : bool)
    (predictions : list tensor) (targets : tensor) : result Q :=
  if self_amp && has_scaler then Ok (_compute_loss predictions targets)
  else
    match predictions with
    | [] => Raise AttributeError
    | _ => Ok (_compute_loss predictions targets)
    end.

(** The deep-supervision loss in the words of the design document: head
    [i] is compared with the label itself for [i = 0] and with the label
    resized to the head's spatial shape otherwise, and weighs [0.5 ^ i]. *)
Definition head_label (label : tensor) (head : tensor) (i : nat) : tensor :=
  match i with
  | O => label
  | S _ => interpolate label (drop 2 (shape head))
  end.

Definition head_term (preds : list tensor) (label : tensor) (i : nat) : Q :=
  match preds !! i with
  | Some head => (1 # 2) ^ Z.of_nat i * loss_function head (head_label label head i)
  | None => 0
  end.

Fixpoint sum_below (n : nat) (f : nat → Q) : Q :=
  match n with
  | O => 0
  | S k => sum_below k f + f k
  end.

Definition deep_supervision_loss (preds : list tensor) (label : tensor) : Q :=
  sum_below (length preds) (head_term preds label).

End Trainer.

(** *** The schedule: quantities of the derived network *)

(** The most levels the sizes allow: an axis is halved only while it is at
    least 8, so at most [floor (log2 size) - 2] times. *)
Definition levels_bound (sizes : list Q) : nat :=
  foldr (λ s n, ((halvings s - 2) + n)%nat) O sizes.

(** The total downsampling along an axis: the product of its strides. *)
Definition total_stride (axis : nat) (strides : list (list Z)) : Z :=
  foldr (λ stride p, (default 1%Z (stride !! axis) * p)%Z) 1%Z strides.

(** A configuration with the optional keys, and a file system that has the
    model it names. *)
Definition example_config_full : gmap string (gmap string value) :=
  {[ "training" := {[ "loss_type" := VStr "dynDiceCELoss";
                      "inplane_size" := VList [VInt 448; VInt 512];
                      "spacing" := VList [VFloat (4 # 5); VFloat (4 # 5)];
                      "seg_labels" := VList [VInt 1; VInt 2];
                      "manual_seed" := VInt 0;
                      "model_to_load" := VStr "model.pt";
                      "pow_dice" := VFloat 2 ]};
     "output" := {[ "out_dir" := VStr "out"; "out_postfix" := VStr "monai_dynUnet_2D";
                    "cache_dir" := VStr "cache" ]} ]}.

Definition example_sys_with_model : os := {|
  isfile := isfile example_sys;
  readlines := readlines example_sys;
  path_exists := λ v, Ok (eq_str v "model.pt");
  mkdir := λ _, Ok ();
  now := "2020-11-01_12-00-00";
|}.

(** *** Tensors: equal values *)

(** Two tensors of the same structure with equal numbers: the equality that
    exact arithmetic gives, whatever fraction stands for a number. *)
#[local] Unset Elimination Schemes.
Inductive tensor_equiv : tensor → tensor → Prop :=
| equiv_scalar x y : x == y → tensor_equiv (Scalar x) (Scalar y)
| equiv_tensor xs ys : Forall2 tensor_equiv xs ys → tensor_equiv (Tensor xs) (Tensor ys).
#[local] Set Elimination Schemes.

(** The sum of four predictions, as [_compute_pred] adds them up. *)
Definition add4 (a b c d : tensor) : tensor :=
  tensor_add (tensor_add (tensor_add a b) c) d.

(** A small image for the examples: one batch, one channel, two by two. *)
Definition example_image : tensor :=
  Tensor [Tensor [Tensor [Tensor [Scalar 1; Scalar 2]; Tensor [Scalar 3; Scalar 4]]]].

(** The three flips of the evaluator. *)
Abbreviation flip_2 t := (flip t [2%nat]).
Abbreviation flip_3 t := (flip t [3%nat]).
Abbreviation flip_23 t := (flip t [2%nat; 3%nat]).

(** *** The main block *)

Module Main.

(** The parsed command line.  The parser requires the first three options
    and gives [out_postfix] the default ['monai_dynUnet_2D'], the other two
    the default [None]. *)
Record arguments : Type := {
  train_files_list : string;
  valid_files_list : string;
  out_folder : string;
  out_postfix : string;
  cache_dir : option string;
  config_file : option string;
}.

(** What the block consults besides the file system of [run_training]. *)
Record host : Type := {
  host_os : os;
  (** [os.path.getsize], of a path that is a file *)
  getsize : string → Z;
  (** [os.path.dirname(monaifbs.__file__)] *)
  package_dir : string;
  (** [open] and [yaml.load] of the configuration file *)
  load : string → result (gmap string (gmap string value));
  (** [os.makedirs] *)
  makedirs : string → result ();
}.

(** The three [FileNotFoundError] of the block, by their messages. *)
Inductive not_found : Type :=
| Training_file_not_found_or_empty (path : string)
| Validation_file_not_found_or_empty (path : string)
| Config_file_not_found (path : string).

(** [not os.path.isfile(path) or os.path.getsize(path) == 0]. *)
Definition not_found_or_empty (h : host) (path : string) : bool :=
  negb (isfile (host_os h) path) || (getsize h path =? 0)%Z.

(** [config_file], after the default is filled in. *)
Definition config_file_of (h : host) (args : arguments) : string :=
  match config_file args with
  | Some config_file => config_file
  | None =>
      Str.path_join (Str.path_join (package_dir h) "config")
        "monai_dynUnet_training_config.yml"
  end.

(** The statements after the configuration is loaded: the dictionary under
    ['output'] is updated in place, so [run_training] sees the updates. *)
Definition run (h : host) (args : arguments)
    (config : gmap string (gmap string value)) : result setup :=
  output ← getitem config "output";
  let output := <["out_postfix" := VStr (out_postfix args)]> output in
  let output := <["out_dir" := VStr (out_folder args)]> output in
  found ← path_exists (host_os h) (VStr (out_folder args));
  _ ← (if found : bool then Ok () else makedirs h (out_folder args));
  let output :=
    match cache_dir args with
    | Some cache_dir => <["cache_dir" := VStr cache_dir]> output
    | None => output
    end in
  run_training_setup (host_os h) (train_files_list args) (valid_files_list args)
    (<["output" := output]> config).

(** The block: one of its own three errors, or what the rest ends with. *)
Definition main (h : host) (args : arguments) : not_found + result setup :=
  if not_found_or_empty h (train_files_list args)
  then inl (Training_file_not_found_or_empty (train_files_list args))
  else if not_found_or_empty h (valid_files_list args)
  then inl (Validation_file_not_found_or_empty (valid_files_list args))
  else
    let config_file := config_file_of h args in
    if negb (isfile (host_os h) config_file)
    then inl (Config_file_not_found config_file)
    else inr (load h config_file ≫= run h args).

End Main.

(** A host for the examples: the two lists and a configuration file are
    there, the output folder is not. *)
Definition example_host : Main.host := {|
  Main.host_os := {|
    isfile := λ p, bool_decide (p ∈ ["i0.nii"; "s0.nii"; "i1.nii"; "s1.nii";
                                    "train.txt"; "valid.txt"; "config.yml"]);
    readlines := λ p,
      if String.eqb p "train.txt" then Some example_train_lines
      else if String.eqb p "valid.txt" then Some ["i1.nii,s1.nii"]
      else None;
    path_exists := λ _, Ok false;
    mkdir := λ _, Ok ();
    now := "2020-11-01_12-00-00";
  |};
  Main.getsize := λ p, if String.eqb p "valid.txt" then 14%Z else 28%Z;
  Main.package_dir := "/opt/monaifbs";
  Main.load := λ _, Ok (example_config "dynDiceCELoss");
  Main.makedirs := λ _, Ok ();
|}.

Definition example_arguments : Main.arguments := {|
  Main.train_files_list := "train.txt";
  Main.valid_files_list := "valid.txt";
  Main.out_folder := "results";
  Main.out_postfix := "run1";
  Main.cache_dir := None;
  Main.config_file := Some "config.yml";
|}.

(** ** Part II. Properties *)

Example schedule_64 :
  network_schedule [1; 1] [64; 64; 1]
  = Some (Ok ([[1;1];[2;2];[2;2];[2;2];[2;2]]%Z, [[3;3];[3;3];[3;3];[3;3];[3;3]]%Z)).
Proof. vm_compute. reflexivity. Qed.

Example schedule_aniso :
  network_schedule [1; 3] [64; 64; 1]
  = Some (Ok ([[1;1];[2;1];[2;2];[2;2];[2;2];[1;2]]%Z, [[3;1];[3;3];[3;3];[3;3];[3;3];[3;3]]%Z)).
Proof. vm_compute. reflexivity. Qed.

(** Below size 8 no level is produced; a spacing of 0 divides by zero. *)
Example schedule_small :
  network_schedule [1; 3] [4; 4; 1] = Some (Ok ([[1;1]]%Z, [[3;3]]%Z)).
Proof. vm_compute. reflexivity. Qed.

Example schedule_zero_spacing :
  network_schedule [0; 1] [64; 64; 1] = Some (Raise ZeroDivisionError).
Proof. vm_compute. reflexivity. Qed.

(** *** The schedule loop: auxiliary facts *)

Section ScheduleFacts.

Implicit Types (spacings sizes ratios : list Q) (stride : list Z).

Lemma floor_div_inject (s : Q) (p : positive) :
  Qfloor (s / inject_Z (Z.pos p)) = (Qfloor s `div` Z.pos p)%Z.
Proof.
  destruct s as [n d]. unfold Qdiv, Qinv, Qmult, Qfloor, inject_Z. simpl.
  rewrite Z.mul_1_r, Pos2Z.inj_mul, Z.div_div by lia. reflexivity.
Qed.

Lemma halvings_div_1 (s : Q) : halvings (s / inject_Z 1) = halvings s.
Proof. unfold halvings. rewrite floor_div_inject, Z.div_1_r. reflexivity. Qed.

Lemma halvings_div_2 (s : Q) :
  8 <= s → S (halvings (s / inject_Z 2)) = halvings s.
Proof.
  intros Hs. unfold halvings. rewrite floor_div_inject.
  assert (8 ≤ Qfloor s)%Z as Hf.
  { change 8%Z with (Qfloor (inject_Z 8)). by apply Qfloor_resp_le. }
  change 2%Z with (2 ^ 1)%Z. rewrite <- Z.shiftr_div_pow2 by lia.
  rewrite Z.log2_shiftr by lia.
  assert (3 ≤ Z.log2 (Qfloor s))%Z.
  { change 3%Z with (Z.log2 8). by apply Z.log2_le_mono. }
  lia.
Qed.

Lemma stride_elt_cases (r s : Q) :
  (stride_elt r s = 2%Z ∧ r <= 2 ∧ 8 <= s) ∨
  (stride_elt r s = 1%Z ∧ ¬ (r <= 2 ∧ 8 <= s)).
Proof.
  unfold stride_elt.
  destruct (Qle_bool r 2) eqn:Hr, (Qle_bool 8 s) eqn:Hs; simpl;
    rewrite ?Qle_bool_iff in *; [left | right ..]; try done;
    (split; [done|]); intros [? ?];
    rewrite <- ?Qle_bool_iff in *; congruence.
Qed.

Lemma kernel_elt_cases (r : Q) :
  (kernel_elt r = 3%Z ∧ r <= 2) ∨ (kernel_elt r = 1%Z ∧ ¬ r <= 2).
Proof.
  unfold kernel_elt. destruct (Qle_bool r 2) eqn:Hr; [left | right].
  - by rewrite <- Qle_bool_iff.
  - split; [done|]. rewrite <- Qle_bool_iff. congruence.
Qed.

(** Every level that is not all 1s halves an axis of size at least 8. *)
Lemma next_sizes_measure ratios sizes :
  (sizes_measure (next_sizes sizes (stride_of ratios sizes)) ≤ sizes_measure sizes)%nat
  ∧ (all_eq_1 (stride_of ratios sizes) = false →
     (sizes_measure (next_sizes sizes (stride_of ratios sizes)) < sizes_measure sizes)%nat).
Proof.
  revert sizes. induction ratios as [|r ratios IH]; intros [|s sizes]; simpl;
    try (split; [lia | done]).
  destruct (IH sizes) as [Hle Hlt].
  unfold next_sizes, stride_of, all_eq_1 in *. simpl.
  destruct (stride_elt_cases r s) as [(-> & _ & Hs) | (-> & _)].
  - pose proof (halvings_div_2 s Hs). simpl. split; [lia | intros _; lia].
  - rewrite halvings_div_1. simpl. split; [lia | intros H; specialize (Hlt H); lia].
Qed.

Lemma min_fold_pos (xs : list Q) (x : Q) :
  0 < x → Forall (Qlt 0) xs →
  0 < fold_left (λ m y, if Qle_bool m y then m else y) xs x.
Proof.
  revert x. induction xs as [|y ys IH]; intros x Hx Hxs; simpl; [done|].
  inversion Hxs; subst. apply IH; [|done]. by destruct (Qle_bool x y).
Qed.

Lemma min_pos spacings :
  spacings ≠ [] → Forall (Qlt 0) spacings →
  ∃ m, Py.min spacings = Ok m ∧ 0 < m.
Proof.
  destruct spacings as [|x xs]; [done|]. intros _ H. inversion H; subst.
  eexists. split; [reflexivity|]. by apply min_fold_pos.
Qed.

Lemma truediv_ok (a b : Q) : ¬ b == 0 → truediv a b = Ok (a / b).
Proof.
  intros Hb. unfold truediv. destruct (Qeq_bool b 0) eqn:E; [|done].
  apply Qeq_bool_iff in E. done.
Qed.

(** The ratios, once [min(spacings)] is known and is not zero. *)
Lemma mapM_ratio (l : list Q) (m : result Q) (d : Q) :
  m = Ok d → ¬ d == 0 →
  mapM (λ sp, x ← m; truediv sp x) l = Ok (map (λ sp, sp / d) l).
Proof.
  intros -> Hd. induction l as [|a l IH]; [done|].
  cbn [mapM map]. rewrite IH. cbn. by rewrite truediv_ok.
Qed.

Lemma spacing_ratio_ok spacings m :
  Py.min spacings = Ok m → ¬ m == 0 →
  spacing_ratio spacings = Ok (map (λ sp, sp / m) spacings).
Proof. intros. by apply mapM_ratio. Qed.

Lemma spacing_ratio_nil : spacing_ratio [] = Ok [].
Proof. reflexivity. Qed.

Lemma spacing_ratio_pos spacings :
  Forall (Qlt 0) spacings → ∃ ratios, spacing_ratio spacings = Ok ratios.
Proof.
  intros H. destruct spacings as [|x xs] eqn:E; [by eexists|].
  destruct (min_pos (x :: xs)) as (m & Hm & Hpos); [done..|].
  eexists. apply (spacing_ratio_ok _ m); [done|].
  intros Hz. rewrite Hz in Hpos. by apply Qlt_irrefl in Hpos.
Qed.

Lemma stride_of_range ratios sizes :
  Forall (λ s, s = 1%Z ∨ s = 2%Z) (stride_of ratios sizes).
Proof.
  revert sizes. induction ratios as [|r ratios IH]; intros [|s sizes];
    unfold stride_of; simpl; try by constructor.
  constructor; [|apply IH].
  destruct (stride_elt_cases r s) as [[-> _] | [-> _]]; auto.
Qed.

Lemma kernel_of_range ratios :
  Forall (λ k, k = 1%Z ∨ k = 3%Z) (kernel_of ratios).
Proof.
  induction ratios as [|r ratios IH]; unfold kernel_of; simpl; constructor; [|done].
  destruct (kernel_elt_cases r) as [[-> _] | [-> _]]; auto.
Qed.

Lemma next_spacings_pos spacings stride :
  Forall (λ s, s = 1%Z ∨ s = 2%Z) stride →
  Forall (Qlt 0) spacings →
  Forall (Qlt 0) (next_spacings spacings stride).
Proof.
  intros Hs H. revert stride Hs.
  induction H as [|x xs Hx Hxs IH]; intros [|z stride] Hs;
    unfold next_spacings; simpl; try by constructor.
  inversion Hs as [|? ? Hz Hs']; subst. constructor; [|by apply IH].
  apply Qmult_lt_0_compat; [done|]. by destruct Hz as [-> | ->].
Qed.

(** With more fuel than the variant the loop reaches its [break] or an
    exception; on positive spacings it reaches the [break]. *)
Lemma schedule_loop_terminates fuel :
  ∀ spacings sizes strides kernels,
    (sizes_measure sizes < fuel)%nat →
    ∃ r, schedule_loop fuel spacings sizes strides kernels = Some r
         ∧ (Forall (Qlt 0) spacings → ∃ x, r = Ok x).
Proof.
  induction fuel as [|fuel IH]; intros spacings sizes strides kernels Hm; [lia|].
  simpl. destruct (spacing_ratio spacings) as [ratios| e |] eqn:Hr.
  - destruct (all_eq_1 (stride_of ratios sizes)) eqn:Hall.
    + eexists. split; [done|]. eauto.
    + destruct (next_sizes_measure ratios sizes) as [_ Hlt].
      specialize (Hlt Hall).
      destruct (IH (next_spacings spacings (stride_of ratios sizes))
                  (next_sizes sizes (stride_of ratios sizes))
                  (strides ++ [stride_of ratios sizes])
                  (kernels ++ [kernel_of ratios])) as (r & -> & Hok); [lia|].
      exists r. split; [done|]. intros Hpos. apply Hok.
      apply next_spacings_pos; [apply stride_of_range | done].
  - eexists. split; [done|]. intros Hpos.
    destruct (spacing_ratio_pos _ Hpos) as [? ?]. congruence.
  - eexists. split; [done|]. intros Hpos.
    destruct (spacing_ratio_pos _ Hpos) as [? ?]. congruence.
Qed.

(** On every input, of any length and sign, the schedule comes to an end:
    with a value or with an exception. *)
Lemma network_schedule_total (spacing patch_size : list Q) :
  ∃ r, network_schedule spacing patch_size = Some r.
Proof.
  unfold network_schedule, derive_schedule.
  destruct (schedule_loop_terminates (schedule_fuel (take 2 patch_size))
              (take 2 spacing) (take 2 patch_size) [] []) as (r & -> & _).
  { unfold schedule_fuel. lia. }
  destruct r as [[[? ?] ?]| |]; eauto.
Qed.

(** The loop is deterministic: more fuel does not change its outcome. *)
Lemma schedule_loop_fuel_mono fuel :
  ∀ fuel' spacings sizes strides kernels r,
    schedule_loop fuel spacings sizes strides kernels = Some r →
    (fuel ≤ fuel')%nat →
    schedule_loop fuel' spacings sizes strides kernels = Some r.
Proof.
  induction fuel as [|fuel IH]; intros [|fuel'] spacings sizes strides kernels r;
    simpl; try done; [lia|].
  intros H Hle. destruct (spacing_ratio spacings); [|done..].
  destruct (all_eq_1 _); [done|]. apply IH; [done | lia].
Qed.

Lemma derive_schedule_fuel_mono fuel fuel' spacings sizes r :
  derive_schedule fuel spacings sizes = Some r →
  (fuel ≤ fuel')%nat →
  derive_schedule fuel' spacings sizes = Some r.
Proof.
  unfold derive_schedule. intros H Hle.
  destruct (schedule_loop fuel spacings sizes [] []) as [x|] eqn:E; [|done].
  by rewrite (schedule_loop_fuel_mono _ _ _ _ _ _ _ E Hle).
Qed.

(** What the loop has appended when it breaks. *)
Lemma schedule_loop_shape fuel :
  ∀ spacings sizes strides kernels spacings' strides' kernels',
    schedule_loop fuel spacings sizes strides kernels
      = Some (Ok (spacings', strides', kernels')) →
    ∃ ss ks, strides' = strides ++ ss ∧ kernels' = kernels ++ ks
             ∧ length ss = length ks
             ∧ Forall (Forall (λ s, s = 1%Z ∨ s = 2%Z)) ss
             ∧ Forall (Forall (λ k, k = 1%Z ∨ k = 3%Z)) ks.
Proof.
  induction fuel as [|fuel IH];
    intros spacings sizes strides kernels spacings' strides' kernels'; [done|].
  simpl. destruct (spacing_ratio spacings) as [ratios| |]; [|done..].
  destruct (all_eq_1 _).
  - intros [= <- <- <-]. exists [], []. by rewrite !app_nil_r.
  - intros H. apply IH in H as (ss & ks & -> & -> & Hlen & Hs & Hk).
    exists (stride_of ratios sizes :: ss), (kernel_of ratios :: ks).
    rewrite <- !app_assoc. simpl. repeat split; try done.
    + by rewrite Hlen.
    + constructor; [apply stride_of_range | done].
    + constructor; [apply kernel_of_range | done].
Qed.

(** Two axes: the ratios the loop computes, against [Qmin]. *)
Lemma spacing_ratio_2 (a b : Q) ratios :
  spacing_ratio [a; b] = Ok ratios →
  ∃ m, m == Qmin a b ∧ ratios = [a / m; b / m].
Proof.
  unfold spacing_ratio. cbn.
  set (m := if Qle_bool a b then a else b).
  assert (m == Qmin a b) as Hm.
  { unfold m. destruct (Qle_bool a b) eqn:E.
    - apply Qle_bool_iff in E. symmetry. by apply Q.min_l.
    - symmetry. apply Q.min_r. apply Qlt_le_weak, Qnot_le_lt.
      rewrite <- Qle_bool_iff. congruence. }
  unfold truediv. destruct (Qeq_bool m 0); cbn; [done|].
  intros [= <-]. by exists m.
Qed.

Lemma rule_stride_elt (r r' s : Q) : r == r' → rule_stride r' s (stride_elt r s).
Proof.
  intros E. unfold rule_stride.
  destruct (stride_elt_cases r s) as [(-> & ? & ?) | (-> & ?)]; rewrite <- E; auto.
Qed.

Lemma rule_kernel_elt (r r' : Q) : r == r' → rule_kernel r' (kernel_elt r).
Proof.
  intros E. unfold rule_kernel.
  destruct (kernel_elt_cases r) as [(-> & ?) | (-> & ?)]; rewrite <- E; auto.
Qed.

(** The loop on two axes appends exactly the levels of the rule. *)
Lemma schedule_loop_rule fuel :
  ∀ (a b c d : Q) strides kernels spacings' strides' kernels',
    schedule_loop fuel [a; b] [c; d] strides kernels
      = Some (Ok (spacings', strides', kernels')) →
    ∃ ss ks, strides' = strides ++ ss ∧ kernels' = kernels ++ ks
             ∧ rule_levels (a, b) (c, d) ss ks ∧ length spacings' = 2%nat.
Proof.
  induction fuel as [|fuel IH];
    intros a b c d strides kernels spacings' strides' kernels'; [done|].
  cbn [schedule_loop].
  destruct (spacing_ratio [a; b]) as [ratios| |] eqn:Hr; [|done..].
  apply spacing_ratio_2 in Hr as (m & Hm & ->).
  assert (a / m == rule_ratio a b a) as H0 by (unfold rule_ratio; by rewrite Hm).
  assert (b / m == rule_ratio a b b) as H1 by (unfold rule_ratio; by rewrite Hm).
  unfold stride_of, kernel_of. cbn [zip_with map].
  pose proof (rule_stride_elt _ _ c H0) as Hs0.
  pose proof (rule_stride_elt _ _ d H1) as Hs1.
  pose proof (rule_kernel_elt _ _ H0) as Hk0.
  pose proof (rule_kernel_elt _ _ H1) as Hk1.
  destruct (all_eq_1 _) eqn:Hall.
  - intros [= <- <- <-]. exists [], []. rewrite !app_nil_r.
    unfold all_eq_1 in Hall. cbn [forallb zip_with] in Hall.
    apply andb_true_iff in Hall as [E0 Hall].
    apply andb_true_iff in Hall as [E1 _].
    apply Z.eqb_eq in E0, E1. rewrite <- E0 in Hs0. rewrite <- E1 in Hs1.
    repeat split; try done. by constructor.
  - intros H. apply IH in H as (ss & ks & -> & -> & Hrule & Hlen).
    eexists (_ :: ss), (_ :: ks). rewrite <- !app_assoc.
    repeat split; try done.
    apply rule_level; try done.
    intros [E0 E1]. unfold all_eq_1 in Hall. cbn [forallb zip_with] in Hall.
    rewrite E0, E1 in Hall. done.
Qed.

End ScheduleFacts.

(** *** The schedule: the three properties *)

(** C8. For every two strictly positive spacings and two strictly positive
    sizes, of magnitudes up to 2^53, the schedule loop of [run_training]
    reaches its [break] after finitely many iterations, at most
    [schedule_fuel] of them, and without an exception; the outcome is the
    same for every larger number of allowed iterations (the computation is
    deterministic).  The range is that of the embedding, on which no
    division or product of the loop overflows or rounds; the variant, the
    number of halvings left to the sizes, does not depend on it. *)
Theorem schedule_loop_finite (sp0 sp1 sz0 sz1 : Q) :
  0 < sp0 → 0 < sp1 → 0 < sz0 → 0 < sz1 →
  Forall in_range [sp0; sp1; sz0; sz1] →
  ∃ strides kernels,
    ∀ fuel, (schedule_fuel [sz0; sz1] ≤ fuel)%nat →
      derive_schedule fuel [sp0; sp1] [sz0; sz1] = Some (Ok (strides, kernels)).
Proof.
  intros H0 H1 _ _ _.
  destruct (schedule_loop_terminates (schedule_fuel [sz0; sz1])
              [sp0; sp1] [sz0; sz1] [] []) as (r & Hr & Hok).
  { unfold schedule_fuel. lia. }
  destruct Hok as [[[spacings' strides] kernels] ->].
  { by repeat constructor. }
  eexists _, _. intros fuel Hle.
  apply (derive_schedule_fuel_mono (schedule_fuel [sz0; sz1])); [|done].
  unfold derive_schedule. rewrite Hr. reflexivity.
Qed.

Lemma schedule_loop_finite_witness :
  ∃ strides kernels,
    ∀ fuel, (schedule_fuel [64; 64]%Q ≤ fuel)%nat →
      derive_schedule fuel [1; 3] [64; 64] = Some (Ok (strides, kernels)).
Proof.
  apply (schedule_loop_finite 1 3 64 64); try reflexivity.
  repeat constructor; by vm_compute.
Defined.

(** C10. Whenever the schedule loop terminates, the two lists handed to the
    network constructor have the same length, at least 1; every stride entry
    is 1 or 2 and every kernel entry is 1 or 3. *)
Theorem schedule_shape (fuel : nat) (spacings sizes : list Q)
    (strides kernels : list (list Z)) :
  derive_schedule fuel spacings sizes = Some (Ok (strides, kernels)) →
  length strides = length kernels
  ∧ (1 ≤ length strides)%nat
  ∧ Forall (Forall (λ s, s = 1%Z ∨ s = 2%Z)) strides
  ∧ Forall (Forall (λ k, k = 1%Z ∨ k = 3%Z)) kernels.
Proof.
  unfold derive_schedule.
  destruct (schedule_loop fuel spacings sizes [] [])
    as [[[[spacings' ss] ks]| |]|] eqn:E; try done.
  intros [= <- <-].
  apply schedule_loop_shape in E as (ss' & ks' & -> & -> & Hlen & Hs & Hk).
  simpl. rewrite length_app. simpl. repeat split.
  - lia.
  - lia.
  - constructor; [|done]. apply Forall_replicate. auto.
  - apply Forall_app. split; [done|]. constructor; [|done].
    apply Forall_replicate. auto.
Qed.

Lemma schedule_shape_witness :
  length [[1;1];[2;1];[2;2];[2;2];[2;2];[1;2]]%Z
  = length [[3;1];[3;3];[3;3];[3;3];[3;3];[3;3]]%Z
  ∧ (1 ≤ length [[1;1];[2;1];[2;2];[2;2];[2;2];[1;2]]%Z)%nat
  ∧ Forall (Forall (λ s, s = 1%Z ∨ s = 2%Z)) [[1;1];[2;1];[2;2];[2;2];[2;2];[1;2]]%Z
  ∧ Forall (Forall (λ k, k = 1%Z ∨ k = 3%Z)) [[3;1];[3;3];[3;3];[3;3];[3;3];[3;3]]%Z.
Proof. apply (schedule_shape 13 [1; 3] [64; 64]). vm_compute. reflexivity. Defined.

(** The schedule on two axes: the prepended stride, the levels of the rule,
    the appended kernel. *)
Lemma derive_schedule_levels (fuel : nat) (sp0 sp1 sz0 sz1 : Q)
    (strides kernels : list (list Z)) :
  derive_schedule fuel [sp0; sp1] [sz0; sz1] = Some (Ok (strides, kernels)) →
  ∃ ss ks, strides = [1; 1]%Z :: ss ∧ kernels = ks ++ [[3; 3]%Z]
           ∧ rule_levels (sp0, sp1) (sz0, sz1) ss ks.
Proof.
  unfold derive_schedule.
  destruct (schedule_loop fuel [sp0; sp1] [sz0; sz1] [] [])
    as [[[[spacings' ss] ks]| |]|] eqn:E; try done.
  intros [= <- <-].
  apply schedule_loop_rule in E as (ss' & ks' & -> & -> & Hrule & ->).
  by exists ss', ks'.
Qed.

(** C1. On two strictly positive spacings and two strictly positive sizes,
    of magnitudes up to 2^53 (the range of the embedding), whenever the loop
    terminates, the strides are a
    prepended [[1; 1]] followed by the levels of the per-level rule, and the
    kernels are the kernels of those levels followed by [[3; 3]]: at each
    level axis [a] has stride 2 if [ratio_a <= 2] and [size_a >= 8], else 1,
    and kernel 3 if [ratio_a <= 2], else 1; sizes are divided and spacings
    multiplied by the stride; the first level whose stride is all 1s ends
    the list and is left out.  For spacing [1.0, 1.0] and size [64, 64] the
    loop terminates, the stride list starts with [[1; 1]], its entries are
    among [1,1], [2,1], [1,2], [2,2], the kernel list has one element more
    than the strides after the first, and ends with [[3; 3]].  For spacing
    [1.0, 3.0] the ratio of axis 1 is above 2 at the first level, where it
    gets stride 1 and kernel 1 while axis 0 gets stride 2 and kernel 3: at
    size [64, 64], and at every size in the range whose axis 0 is at least
    8. *)
Theorem schedule_follows_rule :
  (∀ (fuel : nat) (sp0 sp1 sz0 sz1 : Q) (strides kernels : list (list Z)),
     0 < sp0 → 0 < sp1 → 0 < sz0 → 0 < sz1 →
     Forall in_range [sp0; sp1; sz0; sz1] →
     derive_schedule fuel [sp0; sp1] [sz0; sz1] = Some (Ok (strides, kernels)) →
     ∃ ss ks, strides = [1; 1]%Z :: ss ∧ kernels = ks ++ [[3; 3]%Z]
              ∧ rule_levels (sp0, sp1) (sz0, sz1) ss ks)
  ∧ (∃ fuel strides kernels,
       derive_schedule fuel [1; 1] [64; 64] = Some (Ok (strides, kernels))
       ∧ strides ≠ []
       ∧ head strides = Some [1; 1]%Z
       ∧ Forall (λ s, s ∈ [[1;1]; [2;1]; [1;2]; [2;2]]%Z) strides
       ∧ length kernels = S (length (tail strides))
       ∧ last kernels = Some [3; 3]%Z)
  ∧ (∃ fuel strides kernels,
       derive_schedule fuel [1; 3] [64; 64] = Some (Ok (strides, kernels))
       ∧ 2 < rule_ratio 1 3 3
       ∧ rule_ratio 1 3 1 <= 2
       ∧ strides !! 1%nat = Some [2; 1]%Z
       ∧ kernels !! 0%nat = Some [3; 1]%Z)
  ∧ (∀ (fuel : nat) (sz0 sz1 : Q) (strides kernels : list (list Z)),
       8 <= sz0 →
       Forall in_range [sz0; sz1] →
       derive_schedule fuel [1; 3] [sz0; sz1] = Some (Ok (strides, kernels)) →
       strides !! 1%nat = Some [2; 1]%Z ∧ kernels !! 0%nat = Some [3; 1]%Z).
Proof.
  split; [|split; [|split]].
  - intros fuel sp0 sp1 sz0 sz1 strides kernels _ _ _ _ _.
    apply derive_schedule_levels.
  - exists 5%nat. eexists _, _. split; [vm_compute; reflexivity|].
    repeat split; try done.
    repeat constructor; rewrite !elem_of_cons; tauto.
  - exists 6%nat. eexists _, _. split; [vm_compute; reflexivity|].
    repeat split; done.
  - intros fuel sz0 sz1 strides kernels Hsz _ H.
    apply derive_schedule_levels in H as (ss & ks & -> & -> & Hrule).
    assert (rule_ratio 1 3 1 <= 2) as Hr0 by done.
    assert (¬ rule_ratio 1 3 3 <= 2) as Hr1 by (intros H; by vm_compute in H).
    inversion Hrule as [? ? ? ? Hs0 Hs1 | ? ? ? ? s0 s1 k0 k1 ss' ks' Hs0 Hs1 Hk0 Hk1];
      subst.
    + destruct Hs0 as [(_ & _ & [=]) | [Hn _]]. by destruct Hn.
    + assert (s0 = 2%Z) as -> by (destruct Hs0 as [(_ & _ & ?) | [Hn _]]; [done | by destruct Hn]).
      assert (s1 = 1%Z) as -> by (destruct Hs1 as [(? & _) | [_ ?]]; done).
      assert (k0 = 3%Z) as -> by (destruct Hk0 as [[_ ?] | [? _]]; done).
      assert (k1 = 1%Z) as -> by (destruct Hk1 as [[? _] | [_ ?]]; done).
      done.
Qed.

Lemma schedule_follows_rule_witness :
  ∃ ss ks,
    [[1;1];[2;1];[2;2];[2;2];[2;2];[1;2]]%Z = [1; 1]%Z :: ss
    ∧ [[3;1];[3;3];[3;3];[3;3];[3;3];[3;3]]%Z = ks ++ [[3; 3]%Z]
    ∧ rule_levels (1, 3) (64, 64) ss ks.
Proof.
  apply (proj1 schedule_follows_rule 13%nat 1 3 64 64); try reflexivity.
  repeat constructor; by vm_compute.
Defined.

(** *** The file list: auxiliary facts *)

Section FileListFacts.

Implicit Types (c x : ascii) (s line : string).

Lemma rstrip_no_newline c s : Str.contains c s = false → Str.rstrip c s = s.
Proof.
  induction s as [|x s IH]; simpl; [done|].
  intros H. apply orb_false_iff in H as [Hx Hs].
  rewrite (IH Hs), Hx. by destruct s.
Qed.

(** The conditional of the script is [rstrip] itself. *)
Lemma strip_line_rstrip line : strip_line line = Str.rstrip Str.newline line.
Proof.
  unfold strip_line. destruct (Str.contains _ _) eqn:E; [done|].
  by rewrite rstrip_no_newline.
Qed.

Lemma split_length c s : length (Str.split c s) = S (Str.count c s).
Proof.
  induction s as [|x s IH]; simpl; [done|].
  destruct (Ascii.eqb x c); simpl; [by rewrite IH|].
  destruct (Str.split c s); simpl in *; lia.
Qed.

Lemma split_no_sep c s : Str.count c s = O → Str.split c s = [s].
Proof.
  induction s as [|x s IH]; simpl; [done|].
  destruct (Ascii.eqb x c); simpl; [done|]. intros H. by rewrite IH.
Qed.

(** One separator: the two fields are what is before and after it. *)
Lemma split_one_sep c s :
  Str.count c s = 1%nat → Str.split c s = [Str.before c s; Str.after c s].
Proof.
  induction s as [|x s IH]; simpl; [done|].
  destruct (Ascii.eqb x c); simpl.
  - intros [= H]. by rewrite split_no_sep.
  - intros H. by rewrite IH.
Qed.

Context (fs : os) (input_file : string).

Lemma read_entries_passes data :
  ∀ rest full_list,
    Forall (passes fs) data →
    read_entries fs input_file (data ++ rest) full_list
    = read_entries fs input_file rest (full_list ++ map entry_of data).
Proof.
  induction data as [|line data IH]; intros rest full_list Hall; simpl.
  - by rewrite app_nil_r.
  - inversion Hall as [|? ? (Hc & Hf & Hs) Hall']; subst.
    rewrite strip_line_rstrip, (split_one_sep _ _ Hc), Hf, Hs. simpl.
    rewrite (IH _ _ Hall'), <- app_assoc. reflexivity.
Qed.

End FileListFacts.

(** *** The file list: the two properties *)

(** C3. If every line of the input file, stripped of its trailing newline
    characters, has exactly one comma and the paths before and after it name
    existing files, [create_data_list_of_dictionaries] returns one
    [{"image": first, "label": second}] per line, in the order of the lines. *)
Theorem file_list_in_order (sys : os) (input_file : string) (data : list string) :
  readlines sys input_file = Some data →
  Forall (passes sys) data →
  create_data_list_of_dictionaries sys input_file = Ok (map entry_of data).
Proof.
  intros Hread Hall. unfold create_data_list_of_dictionaries. rewrite Hread.
  rewrite <- (app_nil_r data) at 1.
  by rewrite (read_entries_passes sys input_file data [] [] Hall).
Qed.

Lemma file_list_in_order_witness :
  create_data_list_of_dictionaries example_sys "train.txt"
  = Ok [entry "i0.nii" "s0.nii"; entry "i1.nii" "s1.nii"].
Proof.
  apply (file_list_in_order example_sys "train.txt" example_train_lines);
    [reflexivity|].
  repeat constructor.
Defined.

(** C4. A line reached by the loop (every line before it passes) that does
    not split on [','] into exactly two fields makes the function print its
    diagnostic and leave through [exit()]: no exception reaches the caller.
    A line reached by the loop that splits into two fields of which one is
    not an existing file raises [FileNotFoundError].  Neither is intercepted
    by [run_training], whichever of the two lists the file is. *)
Theorem file_list_failures (sys : os) (input_file : string)
    (pre post : list string) (line : string) :
  readlines sys input_file = Some (pre ++ line :: post) →
  Forall (passes sys) pre →
  let l := Str.rstrip Str.newline line in
  let escapes (f : failure) :=
    create_data_list_of_dictionaries sys input_file = fails f
    ∧ ∀ other config_info c,
        read_configuration sys config_info = Ok c →
        run_training_setup sys input_file other config_info = fails f
        ∧ ∀ files, create_data_list_of_dictionaries sys other = Ok files →
                   run_training_setup sys other input_file config_info = fails f in
  (Str.count Str.comma l ≠ 1%nat →
   escapes (Exited [ValueError_in_function (S (Str.count Str.comma l));
                    Incorrect_format_for_file input_file]))
  ∧ (Str.count Str.comma l = 1%nat →
     ¬ (isfile sys (Str.before Str.comma l) = true
        ∧ isfile sys (Str.after Str.comma l) = true) →
     escapes (Raised (FileNotFoundError
                (Missing_image_or_segmentation (Str.before Str.comma l)
                   (Str.after Str.comma l))))).
Proof.
  intros Hread Hpre l escapes.
  assert (∀ f, create_data_list_of_dictionaries sys input_file = fails f → escapes f)
    as Hesc.
  { intros f E. split; [done|]. intros other config_info c Hc.
    unfold run_training_setup. rewrite Hc. cbn. rewrite E. split.
    - by destruct f.
    - intros files ->. by destruct f. }
  assert (create_data_list_of_dictionaries sys input_file
          = read_entries sys input_file (line :: post) (map entry_of pre)) as E.
  { unfold create_data_list_of_dictionaries. rewrite Hread.
    by rewrite (read_entries_passes sys input_file pre _ [] Hpre). }
  split.
  - intros Hc. apply Hesc. rewrite E. simpl.
    rewrite strip_line_rstrip. fold l.
    pose proof (split_length Str.comma l) as Hlen.
    destruct (Str.split Str.comma l) as [|f [|g [|h fields]]] eqn:Es;
      simpl in Hlen; try (by rewrite <- Hlen).
    lia.
  - intros Hc Hf. apply Hesc. rewrite E. simpl.
    rewrite strip_line_rstrip. fold l. rewrite (split_one_sep _ _ Hc).
    destruct (isfile sys (Str.before Str.comma l)) eqn:E1,
             (isfile sys (Str.after Str.comma l)) eqn:E2; simpl; try done.
    exfalso. by apply Hf.
Qed.

Lemma file_list_failures_witness :
  create_data_list_of_dictionaries example_sys "malformed.txt"
  = Exit [ValueError_in_function 3; Incorrect_format_for_file "malformed.txt"]
  ∧ create_data_list_of_dictionaries example_sys "missing.txt"
    = Raise (FileNotFoundError (Missing_image_or_segmentation "i9.nii" "s1.nii")).
Proof.
  split.
  - refine (proj1 (proj1 (file_list_failures example_sys "malformed.txt"
             ["i0.nii,s0.nii" +:+ String Str.newline EmptyString] ["i1.nii,s1.nii"]
             ("i1.nii,s1.nii,extra" +:+ String Str.newline EmptyString)
             eq_refl _) _)).
    + repeat constructor.
    + vm_compute. lia.
  - refine (proj1 (proj2 (file_list_failures example_sys "missing.txt"
             ["i0.nii,s0.nii" +:+ String Str.newline EmptyString] []
             "i9.nii,s1.nii" eq_refl _) _ _)).
    + repeat constructor.
    + reflexivity.
    + vm_compute. intros [? _]. done.
Defined.

(** *** The loss lookup *)

Section LossFacts.

Context (number_out_channels : Z) (config_dict : gmap string (gmap string value)).

(** The function, once the loss type is known to be a string. *)
Lemma choose_loss_function_str training s :
  config_dict !! "training" = Some training →
  training !! "loss_type" = Some (VStr s) →
  choose_loss_function number_out_channels config_dict
  = let sigmoid := negb (1 <? number_out_channels)%Z in
    let softmax := (1 <? number_out_channels)%Z in
    if String.eqb s "dynDiceCELoss" then Ok (DiceCELoss None (pow_of training))
    else if String.eqb s "dynDiceCELoss_batch" then
      Ok (DiceCELoss (Some true) (pow_of training))
    else if String.eqb s "Batch_Dice" then
      Ok (DiceLossExtended sigmoid softmax (VFloat (1 # 100000))
            (VFloat (1 # 100000)) false true)
    else if String.eqb s "Dice_Only" then
      Ok (DiceLossExtended sigmoid softmax (VInt 0) (VInt 0) false false)
    else Raise (IOError "Unrecognized loss type").
Proof.
  intros Ht Hl. unfold choose_loss_function, getitem.
  destruct (1 <? number_out_channels)%Z; rewrite Ht; cbn; rewrite Hl; cbn;
    reflexivity.
Qed.

(** The function, when the loss type is there and is not a string. *)
Lemma choose_loss_function_not_str training v :
  config_dict !! "training" = Some training →
  training !! "loss_type" = Some v →
  (∀ s, v ≠ VStr s) →
  choose_loss_function number_out_channels config_dict
  = Raise (IOError "Unrecognized loss type").
Proof.
  intros Ht Hl Hv. unfold choose_loss_function, getitem.
  destruct (1 <? number_out_channels)%Z; rewrite Ht; cbn; rewrite Hl; cbn;
    destruct v; try done; by destruct (Hv s).
Qed.

Lemma choose_loss_function_no_training :
  config_dict !! "training" = None →
  choose_loss_function number_out_channels config_dict = Raise (KeyError "training").
Proof.
  intros Ht. unfold choose_loss_function, getitem.
  destruct (1 <? number_out_channels)%Z; by rewrite Ht.
Qed.

Lemma choose_loss_function_no_loss_type training :
  config_dict !! "training" = Some training →
  training !! "loss_type" = None →
  choose_loss_function number_out_channels config_dict = Raise (KeyError "loss_type").
Proof.
  intros Ht Hl. unfold choose_loss_function, getitem.
  destruct (1 <? number_out_channels)%Z; rewrite Ht; cbn; by rewrite Hl.
Qed.

Lemma recognized_cases s :
  s ∈ recognized_loss_types ↔
  s = "dynDiceCELoss" ∨ s = "dynDiceCELoss_batch" ∨ s = "Batch_Dice" ∨ s = "Dice_Only".
Proof.
  unfold recognized_loss_types. rewrite !elem_of_cons, elem_of_nil. tauto.
Qed.

Lemma choose_recognized training s :
  config_dict !! "training" = Some training →
  training !! "loss_type" = Some (VStr s) →
  s ∈ recognized_loss_types →
  ∃ l, choose_loss_function number_out_channels config_dict = Ok l.
Proof.
  intros Ht Hl Hs. rewrite (choose_loss_function_str training s Ht Hl).
  apply recognized_cases in Hs as [-> | [-> | [-> | ->]]]; cbn; eauto.
Qed.

Lemma choose_unrecognized training s :
  config_dict !! "training" = Some training →
  training !! "loss_type" = Some (VStr s) →
  s ∉ recognized_loss_types →
  choose_loss_function number_out_channels config_dict
  = Raise (IOError "Unrecognized loss type").
Proof.
  intros Ht Hl Hs. rewrite (choose_loss_function_str training s Ht Hl).
  rewrite recognized_cases in Hs. cbn zeta.
  destruct (String.eqb_spec s "dynDiceCELoss"); [tauto|].
  destruct (String.eqb_spec s "dynDiceCELoss_batch"); [tauto|].
  destruct (String.eqb_spec s "Batch_Dice"); [tauto|].
  destruct (String.eqb_spec s "Dice_Only"); [tauto|].
  done.
Qed.

End LossFacts.

(** C6. [choose_loss_function] raises exactly when the configured
    [config_dict['training']['loss_type']] is not one of the four strings
    (a [KeyError] when there is no such entry, the [IOError] otherwise), and
    returns a loss function for each of the four. *)
Theorem loss_type_raises (number_out_channels : Z)
    (config_dict : gmap string (gmap string value)) :
  let recognized :=
    ∃ s, configured_loss_type config_dict = Some (VStr s) ∧ s ∈ recognized_loss_types in
  ((∃ e, choose_loss_function number_out_channels config_dict = Raise e) ↔ ¬ recognized)
  ∧ ((∃ l, choose_loss_function number_out_channels config_dict = Ok l) ↔ recognized)
  ∧ (∀ v, configured_loss_type config_dict = Some v →
          ¬ (∃ s, v = VStr s ∧ s ∈ recognized_loss_types) →
          choose_loss_function number_out_channels config_dict
          = Raise (IOError "Unrecognized loss type")).
Proof.
  intros recognized.
  (* the function raises, or the loss type is recognized and it returns *)
  assert ((¬ recognized
           ∧ (∃ e, choose_loss_function number_out_channels config_dict = Raise e)
           ∧ ∀ v, configured_loss_type config_dict = Some v →
                  choose_loss_function number_out_channels config_dict
                  = Raise (IOError "Unrecognized loss type"))
          ∨ (recognized
             ∧ ∃ l, choose_loss_function number_out_channels config_dict = Ok l))
    as Hcases.
  { unfold recognized, configured_loss_type.
    destruct (config_dict !! "training") as [training|] eqn:Ht; cbn.
    2:{ left. rewrite choose_loss_function_no_training by done.
        split; [by intros (? & ? & _) | split; [eauto | done]]. }
    destruct (training !! "loss_type") as [v|] eqn:Hl.
    2:{ left. rewrite (choose_loss_function_no_loss_type _ _ training) by done.
        split; [by intros (? & ? & _) | split; [eauto | done]]. }
    assert ((∃ s, v = VStr s) ∨ (∀ s, v ≠ VStr s)) as [[s ->] | Hv]
      by (destruct v; eauto; right; done).
    - destruct (decide (s ∈ recognized_loss_types)) as [Hs | Hs].
      + right. split; [by exists s|]. by apply (choose_recognized _ _ training s).
      + left. rewrite (choose_unrecognized _ _ training s) by done.
        split; [by intros (? & [= <-] & ?) | split; [eauto | done]].
    - left. rewrite (choose_loss_function_not_str _ _ training v) by done.
      split; [|split; [eauto | done]].
      intros (s & [= ->] & _). by destruct (Hv s). }
  destruct Hcases as [(Hn & [e He] & Hio) | (Hr & [l Hl])].
  - split; [|split].
    + split; [done | eauto].
    + split; [intros [l Hl]; congruence | done].
    + intros v Hv _. eauto.
  - split; [|split].
    + split; [intros [e He]; congruence | done].
    + split; [done | eauto].
    + intros v Hv Hn. destruct Hn. destruct Hr as (s & Hs & Hin).
      exists s. split; [congruence | done].
Qed.

(** C5, as the code has it.  For each of the four loss types and every
    number of output channels the function returns the configuration of
    that type, and the four are pairwise distinct: [DiceCELoss] with the
    default [batch_version] (False) and with [batch_version=True], both with
    the configured [pow]; [DiceLossExtended] with smooth terms 1e-5,
    [squared_pred] False, [batch_version] True; [DiceLossExtended] with
    smooth terms 0, [squared_pred] False, [batch_version] False.  The two
    [DiceLossExtended] calls get sigmoid for at most one output channel and
    softmax for more; the two [DiceCELoss] calls get no activation argument. *)
Theorem loss_configurations (number_out_channels : Z)
    (config_dict : gmap string (gmap string value))
    (training : gmap string value) (loss_type : string) :
  config_dict !! "training" = Some training →
  training !! "loss_type" = Some (VStr loss_type) →
  let pow := pow_of training in
  let sigmoid := negb (1 <? number_out_channels)%Z in
  let softmax := (1 <? number_out_channels)%Z in
  let dice_ce := DiceCELoss None pow in
  let dice_ce_batch := DiceCELoss (Some true) pow in
  let batch_dice :=
    DiceLossExtended sigmoid softmax (VFloat (1 # 100000)) (VFloat (1 # 100000)) false true in
  let dice_only := DiceLossExtended sigmoid softmax (VInt 0) (VInt 0) false false in
  let chosen := choose_loss_function number_out_channels config_dict in
  (loss_type = "dynDiceCELoss" → chosen = Ok dice_ce)
  ∧ (loss_type = "dynDiceCELoss_batch" → chosen = Ok dice_ce_batch)
  ∧ (loss_type = "Batch_Dice" → chosen = Ok batch_dice)
  ∧ (loss_type = "Dice_Only" → chosen = Ok dice_only)
  ∧ NoDup [dice_ce; dice_ce_batch; batch_dice; dice_only]
  ∧ batch_version_of dice_ce = false
  ∧ batch_version_of dice_ce_batch = true
  ∧ activation_of batch_dice
    = Some (if (1 <? number_out_channels)%Z then Softmax else Sigmoid)
  ∧ activation_of dice_only
    = Some (if (1 <? number_out_channels)%Z then Softmax else Sigmoid)
  ∧ activation_of dice_ce = None
  ∧ activation_of dice_ce_batch = None.
Proof.
  intros Ht Hl pow sigmoid softmax dice_ce dice_ce_batch batch_dice dice_only chosen.
  unfold chosen. rewrite (choose_loss_function_str _ _ training loss_type Ht Hl).
  cbn zeta. fold pow sigmoid softmax dice_ce dice_ce_batch.
  repeat split; try (by intros ->).
  - rewrite !NoDup_cons, !elem_of_cons, !elem_of_nil.
    repeat split; try apply NoDup_nil_2; unfold dice_ce, dice_ce_batch, batch_dice, dice_only;
      intros H; repeat destruct H as [H | H]; done.
  - unfold batch_dice, sigmoid, softmax. by destruct (1 <? number_out_channels)%Z.
  - unfold dice_only, sigmoid, softmax. by destruct (1 <? number_out_channels)%Z.
Qed.

Lemma loss_configurations_witness :
  choose_loss_function 1 (example_config "Batch_Dice")
  = Ok (DiceLossExtended true false (VFloat (1 # 100000)) (VFloat (1 # 100000)) false true)
  ∧ choose_loss_function 3 (example_config "Dice_Only")
    = Ok (DiceLossExtended false true (VInt 0) (VInt 0) false false).
Proof.
  split.
  - refine (proj1 (proj2 (proj2 (loss_configurations 1 (example_config "Batch_Dice")
             _ "Batch_Dice" eq_refl eq_refl))) eq_refl).
  - refine (proj1 (proj2 (proj2 (proj2 (loss_configurations 3 (example_config "Dice_Only")
             _ "Dice_Only" eq_refl eq_refl)))) eq_refl).
Defined.

(** C5, as stated, fails: for the loss type "dynDiceCELoss" the function
    returns the same call for one and for two output channels, and that
    call has no activation argument. *)
Lemma loss_activation_not_by_channels :
  ¬ (∃ l1 l2,
       choose_loss_function 1 (example_config "dynDiceCELoss") = Ok l1
       ∧ choose_loss_function 2 (example_config "dynDiceCELoss") = Ok l2
       ∧ activation_of l1 = Some Sigmoid
       ∧ activation_of l2 = Some Softmax).
Proof.
  intros (l1 & l2 & H1 & H2 & A1 & A2).
  vm_compute in H1. injection H1 as <-. done.
Qed.

(** *** The optional keys of the configuration *)

(** The configuration that [run_training] has read, step by step. *)
Lemma read_configuration_inv (sys : os) (config_info : gmap string (gmap string value))
    (c : configuration) :
  read_configuration sys config_info = Ok c →
  ∃ training output,
    config_info !! "training" = Some training
    ∧ config_info !! "output" = Some output
    ∧ seg_labels c = seg_labels_of training
    ∧ len (seg_labels c) = Ok (nr_out_channels c)
    ∧ model_to_load_of sys training = Ok (model_to_load c)
    ∧ seed c = seed_of training
    ∧ determinism c = set_determinism_calls (seed c)
    ∧ out_model_dir_of sys output = Ok (out_model_dir c)
    ∧ out_cache_dir c = out_cache_dir_of output (out_model_dir c).
Proof.
  unfold read_configuration, getitem.
  destruct (config_info !! "training") as [training|]; [cbn|done].
  destruct (len (seg_labels_of training)) as [nr| |] eqn:Hlen; [cbn|done..].
  destruct (training !! "inplane_size") as [inplane|]; [cbn|done].
  destruct (add_list inplane _) as [patch| |]; [cbn|done..].
  destruct (training !! "spacing") as [sp|]; [cbn|done].
  destruct (model_to_load_of sys training) as [model| |] eqn:Hmodel; [cbn|done..].
  destruct (config_info !! "output") as [output|]; [cbn|done].
  destruct (out_model_dir_of sys output) as [dir| |] eqn:Hdir; [cbn|done..].
  destruct (mkdir sys _) as [[]| |]; [cbn|done..].
  intros [= <-]. by exists training, output.
Qed.

Lemma out_model_dir_of_inv (sys : os) (output : gmap string value) (dir : string) :
  out_model_dir_of sys output = Ok dir →
  ∃ out_dir out_postfix,
    output !! "out_dir" = Some (VStr out_dir)
    ∧ output !! "out_postfix" = Some (VStr out_postfix)
    ∧ dir = Str.path_join out_dir (now sys +:+ "_" +:+ out_postfix).
Proof.
  unfold out_model_dir_of, getitem.
  destruct (output !! "out_dir") as [d|]; [cbn|done].
  destruct (output !! "out_postfix") as [p|]; [cbn|done].
  destruct p; try done; cbn. destruct d; try done; cbn.
  intros [= <-]. eauto.
Qed.

(** C9. The defaults of the optional keys.  Without 'seg_labels' the labels
    are [[1]], one output channel; without 'manual_seed', or with [None],
    [set_determinism] is not called; without 'model_to_load', or with
    [None], there is no model to load and no [CheckpointLoader] among the
    handlers; without 'pow_dice' the [pow] of [choose_loss_function] is 1.0;
    without 'cache_dir' in [config['output']] the cache directory is
    'persistent_cache' under the time-stamped output directory.  These are
    the values [run_training] holds once it has read the configuration. *)
Theorem optional_key_defaults (sys : os)
    (config_info : gmap string (gmap string value))
    (training output : gmap string value) (c : configuration) :
  config_info !! "training" = Some training →
  config_info !! "output" = Some output →
  read_configuration sys config_info = Ok c →
  (training !! "seg_labels" = None →
   seg_labels c = VList [VInt 1] ∧ nr_out_channels c = 1%nat)
  ∧ (training !! "manual_seed" = None ∨ training !! "manual_seed" = Some VNone →
     seed c = VNone ∧ determinism c = [])
  ∧ (training !! "model_to_load" = None ∨ training !! "model_to_load" = Some VNone →
     model_to_load c = VNone
     ∧ ∀ load_path, CheckpointLoader load_path ∉ train_handlers (model_to_load c))
  ∧ (training !! "pow_dice" = None →
     pow_of training = VFloat 1
     ∧ ∀ n batch_version pow,
         choose_loss_function n config_info = Ok (DiceCELoss batch_version pow) →
         pow = VFloat 1)
  ∧ (output !! "cache_dir" = None →
     ∃ out_dir out_postfix,
       output !! "out_dir" = Some (VStr out_dir)
       ∧ output !! "out_postfix" = Some (VStr out_postfix)
       ∧ out_model_dir c = Str.path_join out_dir (now sys +:+ "_" +:+ out_postfix)
       ∧ out_cache_dir c = VStr (Str.path_join (out_model_dir c) "persistent_cache")).
Proof.
  intros Ht Ho Hc.
  apply read_configuration_inv in Hc
    as (training' & output' & Ht' & Ho' & Hseg & Hlen & Hmodel & Hseed & Hdet & Hdir & Hcache).
  rewrite Ht in Ht'. rewrite Ho in Ho'. injection Ht' as <-. injection Ho' as <-.
  repeat split.
  - rewrite Hseg. unfold seg_labels_of. by rewrite H.
  - rewrite Hseg in Hlen. unfold seg_labels_of in Hlen. rewrite H in Hlen.
    by injection Hlen.
  - rewrite Hseed. unfold seed_of. by destruct H as [-> | ->].
  - rewrite Hdet, Hseed. unfold seed_of. by destruct H as [-> | ->].
  - unfold model_to_load_of in Hmodel.
    destruct H as [H | H]; rewrite H in Hmodel; by injection Hmodel.
  - intros load_path.
    assert (model_to_load c = VNone) as ->.
    { unfold model_to_load_of in Hmodel.
      destruct H as [H | H]; rewrite H in Hmodel; by injection Hmodel. }
    unfold train_handlers. cbn. rewrite !elem_of_cons, elem_of_nil.
    intros Hin. repeat destruct Hin as [Hin | Hin]; done.
  - unfold pow_of. by rewrite H.
  - intros n batch_version pow.
    assert (pow_of training = VFloat 1) as Hpow by (unfold pow_of; by rewrite H).
    unfold choose_loss_function, getitem. rewrite Ht. cbn.
    destruct (1 <? n)%Z; cbn;
      (destruct (training !! "loss_type") as [v|]; [cbn|done]);
      repeat (destruct (eq_str v _); [intros [= _ <-]; done || done|]); done.
  - intros Hnone. apply out_model_dir_of_inv in Hdir as (out_dir & out_postfix & ? & ? & ?).
    exists out_dir, out_postfix. repeat split; try done.
    rewrite Hcache. unfold out_cache_dir_of. by rewrite Hnone.
Qed.

Lemma optional_key_defaults_witness :
  ∃ c, read_configuration example_sys (example_config "dynDiceCELoss") = Ok c
       ∧ seg_labels c = VList [VInt 1] ∧ nr_out_channels c = 1%nat
       ∧ seed c = VNone ∧ determinism c = []
       ∧ model_to_load c = VNone
       ∧ out_cache_dir c
         = VStr "out/2020-11-01_12-00-00_monai_dynUnet_2D/persistent_cache".
Proof.
  eexists. split; [vm_compute; reflexivity|].
  pose proof (optional_key_defaults example_sys (example_config "dynDiceCELoss")
                _ _ _ eq_refl eq_refl eq_refl) as (Hseg & Hseed & Hmodel & _ & Hcache).
  destruct (Hseg eq_refl) as [? ?]. destruct (Hseed (or_introl eq_refl)) as [? ?].
  destruct (Hmodel (or_introl eq_refl)) as [? _].
  destruct (Hcache eq_refl) as (? & ? & _ & _ & _ & ?).
  repeat split; done.
Defined.

(** *** The evaluator: flips *)

Section FlipFacts.

Lemma fmap_fixes (f : tensor → tensor) (items : list tensor) :
  Forall (λ t, f t = t) items → f <$> items = items.
Proof.
  intros H. rewrite <- (list_fmap_id items) at 2.
  apply Forall_fmap_ext. by eapply Forall_impl.
Qed.

(** Flipping twice along the same dimensions gives the tensor back. *)
Lemma flip_from_involutive (dims : list nat) (t : tensor) :
  ∀ depth, flip_from depth dims (flip_from depth dims t) = t.
Proof.
  induction t as [x | items IH] using tensor_induction; intros depth; simpl;
    [done|]. f_equal.
  assert ((flip_from (S depth) dims ∘ flip_from (S depth) dims) <$> items = items)
    as Hitems.
  { apply fmap_fixes. eapply Forall_impl; [exact IH|]. intros t Ht. apply Ht. }
  destruct (bool_decide (depth ∈ dims)).
  - by rewrite fmap_reverse, reverse_involutive, <- list_fmap_compose.
  - by rewrite <- list_fmap_compose.
Qed.

(** Flipping along 2 and 3 is flipping along 3, then along 2. *)
Lemma flip_from_both (t : tensor) :
  ∀ depth, flip_from depth [2; 3]%nat t
           = flip_from depth [2%nat] (flip_from depth [3%nat] t).
Proof.
  induction t as [x | items IH] using tensor_induction; intros depth; simpl;
    [done|]. f_equal.
  assert (flip_from (S depth) [2; 3]%nat <$> items
          = flip_from (S depth) [2%nat] <$> (flip_from (S depth) [3%nat] <$> items))
    as ->.
  { rewrite <- list_fmap_compose. apply Forall_fmap_ext.
    eapply Forall_impl; [exact IH|]. intros t Ht. apply Ht. }
  destruct (decide (depth = 2%nat)) as [-> | N2]; [done|].
  destruct (decide (depth = 3%nat)) as [-> | N3].
  - change (bool_decide (3%nat ∈ [2; 3]%nat)) with true.
    change (bool_decide (3%nat ∈ [3%nat])) with true.
    change (bool_decide (3%nat ∈ [2%nat])) with false.
    cbv iota. by rewrite fmap_reverse.
  - rewrite !bool_decide_eq_false_2; [done|..];
      rewrite ?elem_of_cons, elem_of_nil; tauto.
Qed.

End FlipFacts.

(** C7. The prediction that [DynUNetEvaluator._iteration] returns is the
    mean of four inferences: on the input, and on the input flipped along
    dimension 2, along dimension 3 and along both, each flipped back along
    the dimensions it was flipped along (which restores the orientation).
    Nothing of it depends on a setting: [amp] only chooses between two
    identical calls. *)
Theorem evaluator_flip_ensemble {network batch : Type}
    (inferer : tensor → network → tensor)
    (prepare_batch : batch → tensor * tensor)
    (self_network : network) (self_amp : bool) (batchdata : batch) :
  let x := (prepare_batch batchdata).1 in
  let infer (t : tensor) := inferer t self_network in
  let unflip_2 (t : tensor) := flip t [2%nat] in
  let unflip_3 (t : tensor) := flip t [3%nat] in
  let unflip_23 (t : tensor) := flip t [2%nat; 3%nat] in
  pred (evaluator_iteration inferer prepare_batch self_network self_amp batchdata)
  = tensor_div
      (tensor_add
         (tensor_add
            (tensor_add (infer x) (unflip_2 (infer (flip x [2%nat]))))
            (unflip_3 (infer (flip x [3%nat]))))
         (unflip_23 (infer (flip x [2%nat; 3%nat]))))
      4
  ∧ flip x [2%nat; 3%nat] = flip (flip x [3%nat]) [2%nat]
  ∧ (∀ t, unflip_2 (flip t [2%nat]) = t)
  ∧ (∀ t, unflip_3 (flip t [3%nat]) = t)
  ∧ (∀ t, unflip_23 (flip t [2%nat; 3%nat]) = t).
Proof.
  intros x infer unflip_2 unflip_3 unflip_23. repeat split.
  - unfold evaluator_iteration, x. destruct (prepare_batch batchdata) as [inputs targets].
    by destruct self_amp.
  - apply flip_from_both.
  - intros t. apply flip_from_involutive.
  - intros t. apply flip_from_involutive.
  - intros t. apply flip_from_involutive.
Qed.

(** *** The trainer: the weights of the heads *)

Section TrainerFacts.

Context (loss_function : tensor → tensor → Q).
Context (interpolate : tensor → list nat → tensor).

Lemma sum_below_ext (n : nat) (f g : nat → Q) :
  (∀ i, (i < n)%nat → f i = g i) → sum_below n f = sum_below n g.
Proof.
  induction n as [|n IH]; intros H; simpl; [done|].
  rewrite IH by (intros; apply H; lia). by rewrite H by lia.
Qed.

(** Python's [sum] over an enumerated list, index by index. *)
Lemma py_sum_imap {A : Type} (g : nat → A → Q) (l : list A) :
  py_sum (imap g l)
  = sum_below (length l) (λ i, match l !! i with Some a => g i a | None => 0 end).
Proof.
  unfold py_sum. induction l as [|x l IH] using rev_ind; [done|].
  rewrite imap_app, fold_left_app, IH, length_app, Nat.add_1_r. simpl.
  rewrite Nat.add_0_r, list_lookup_middle by done. f_equal.
  apply sum_below_ext. intros i Hi. by rewrite lookup_app_l.
Qed.

Lemma lookup_zip_fmap {A B : Type} (f : A → B) (l : list A) (i : nat) :
  zip l (f <$> l) !! i = (λ a, (a, f a)) <$> l !! i.
Proof.
  revert i. induction l as [|a l IH]; intros [|i]; simpl; done.
Qed.

(** The code's sum is the sum of the design document. *)
Lemma compute_loss_heads (preds : list tensor) (label : tensor) :
  _compute_loss loss_function interpolate preds label
  = deep_supervision_loss loss_function interpolate preds label.
Proof.
  unfold _compute_loss, deep_supervision_loss. rewrite py_sum_imap.
  assert (length (zip preds ([label] ++ ((λ pred, interpolate label (drop 2 (shape pred)))
                                          <$> drop 1 preds))) = length preds) as ->.
  { destruct preds as [|p ps]; [done|]. simpl. rewrite drop_0.
    by rewrite length_zip_with, length_fmap, Nat.min_id. }
  apply sum_below_ext. intros i _. unfold head_term.
  destruct preds as [|p ps]; [done|]. simpl. rewrite drop_0.
  destruct i as [|i]; simpl; [done|].
  rewrite lookup_zip_fmap. by destruct (ps !! i).
Qed.

End TrainerFacts.

(** C2. For a non-empty list of heads the training loss of
    [DynUNetTrainer._iteration] is the sum over the heads of
    [0.5 ^ i * loss_function(p_i, l_i)], with [l_0] the label itself and
    [l_i], for [i >= 1], the label interpolated to the spatial shape of
    [p_i]; for three heads it is
    [loss(p0, l) + 0.5 * loss(p1, l1) + 0.25 * loss(p2, l2)]. *)
Theorem deep_supervision_weights
    (loss_function : tensor → tensor → Q)
    (interpolate : tensor → list nat → tensor)
    (self_amp has_scaler : bool) (preds : list tensor) (label : tensor) :
  preds ≠ [] →
  trainer_loss loss_function interpolate self_amp has_scaler preds label
  = Ok (deep_supervision_loss loss_function interpolate preds label)
  ∧ (∀ p0 p1 p2, preds = [p0; p1; p2] →
       deep_supervision_loss loss_function interpolate preds label
       == loss_function p0 label
          + (1 # 2) * loss_function p1 (interpolate label (drop 2 (shape p1)))
          + (1 # 4) * loss_function p2 (interpolate label (drop 2 (shape p2)))).
Proof.
  intros Hne. split.
  - unfold trainer_loss. rewrite compute_loss_heads.
    destruct (self_amp && has_scaler); [done|]. by destruct preds.
  - intros p0 p1 p2 ->. unfold deep_supervision_loss, head_term. simpl.
    change ((1 # 2) ^ 0) with 1. change ((1 # 2) ^ 1) with (1 # 2).
    change ((1 # 2) ^ 2) with (1 # 4). ring.
Qed.

Lemma deep_supervision_weights_witness :
  let loss_function (p l : tensor) :=
    match p, l with Scalar x, Scalar y => x * y | _, _ => 0 end in
  let interpolate (l : tensor) (size : list nat) := l in
  trainer_loss loss_function interpolate false false
    [Scalar 4; Scalar 8; Scalar 16] (Scalar 1)
  = Ok (deep_supervision_loss loss_function interpolate
          [Scalar 4; Scalar 8; Scalar 16] (Scalar 1))
  ∧ deep_supervision_loss loss_function interpolate
      [Scalar 4; Scalar 8; Scalar 16] (Scalar 1) == 12.
Proof.
  intros loss_function interpolate.
  destruct (deep_supervision_weights loss_function interpolate false false
              [Scalar 4; Scalar 8; Scalar 16] (Scalar 1)) as [H1 H2]; [done|].
  split; [exact H1|]. rewrite (H2 _ _ _ eq_refl). reflexivity.
Defined.

(** *** The schedule: further properties *)

Section ScheduleOutcomes.

Implicit Types (spacings sizes ratios : list Q) (stride : list Z).

Lemma mapM_ratio_outcome (l : list Q) (d : Q) :
  (∃ ratios, mapM (λ sp, x ← Ok d; truediv sp x) l = Ok ratios)
  ∨ mapM (λ sp, x ← Ok d; truediv sp x) l = Raise ZeroDivisionError.
Proof.
  destruct (Qeq_bool d 0) eqn:E.
  - destruct l as [|a l]; [left; by eexists|]. right.
    cbn. unfold truediv. by rewrite E.
  - left. eexists. apply mapM_ratio; [done|].
    intros H. apply Qeq_bool_iff in H. congruence.
Qed.

(** The only exception of the ratios is the division by zero. *)
Lemma spacing_ratio_outcome spacings :
  (∃ ratios, spacing_ratio spacings = Ok ratios)
  ∨ spacing_ratio spacings = Raise ZeroDivisionError.
Proof.
  destruct spacings as [|x xs]; [left; by eexists|].
  apply mapM_ratio_outcome.
Qed.

Lemma schedule_loop_outcome fuel :
  ∀ spacings sizes strides kernels r,
    schedule_loop fuel spacings sizes strides kernels = Some r →
    (∃ x, r = Ok x) ∨ r = Raise ZeroDivisionError.
Proof.
  induction fuel as [|fuel IH]; intros spacings sizes strides kernels r; [done|].
  simpl. destruct (spacing_ratio_outcome spacings) as [[ratios ->] | ->].
  - destruct (all_eq_1 _); [intros [= <-]; eauto | apply IH].
  - intros [= <-]. by right.
Qed.

End ScheduleOutcomes.

(** X1. On every input of magnitudes up to 2^53, whatever the lengths and
    signs of the spacings and sizes, the schedule loop comes to an end
    within [schedule_fuel] iterations: with the two lists, or with the
    [ZeroDivisionError] of a smallest spacing of 0, and with nothing else. *)
Theorem schedule_always_ends (spacing patch_size : list Q) :
  Forall in_range (take 2 spacing) →
  Forall in_range (take 2 patch_size) →
  (∃ strides kernels, network_schedule spacing patch_size = Some (Ok (strides, kernels)))
  ∨ network_schedule spacing patch_size = Some (Raise ZeroDivisionError).
Proof.
  intros _ _. unfold network_schedule, derive_schedule.
  destruct (schedule_loop_terminates (schedule_fuel (take 2 patch_size))
              (take 2 spacing) (take 2 patch_size) [] []) as (r & Hr & _).
  { unfold schedule_fuel. lia. }
  rewrite Hr. apply schedule_loop_outcome in Hr as [[[[? ?] ?] ->] | ->]; eauto.
Qed.

Lemma schedule_always_ends_witness :
  (∃ strides kernels,
     network_schedule [-1; 3; 5] [64; -2; 1] = Some (Ok (strides, kernels)))
  ∨ network_schedule [-1; 3; 5] [64; -2; 1] = Some (Raise ZeroDivisionError).
Proof.
  apply schedule_always_ends; repeat constructor; by vm_compute.
Defined.

Section ScheduleZero.

Lemma min_fold_spec (xs : list Q) (x : Q) :
  let m := fold_left (λ m y, if Qle_bool m y then m else y) xs x in
  m ∈ x :: xs ∧ m <= x ∧ Forall (Qle m) xs.
Proof.
  revert x. induction xs as [|y ys IH]; intros x; simpl.
  - repeat split; [by left | apply Qle_refl | constructor].
  - destruct (Qle_bool x y) eqn:E.
    + apply Qle_bool_iff in E. destruct (IH x) as (Hin & Hle & Hall).
      repeat split; [|done|].
      * apply elem_of_cons in Hin as [-> | Hin]; [by left | by do 2 right].
      * constructor; [by eapply Qle_trans | done].
    + assert (y <= x) as Hyx.
      { apply Qlt_le_weak, Qnot_le_lt. rewrite <- Qle_bool_iff. congruence. }
      destruct (IH y) as (Hin & Hle & Hall).
      repeat split; [by right | by eapply Qle_trans | by constructor].
Qed.

(** A smallest spacing of 0 is what [min] returns. *)
Lemma min_zero (spacings : list Q) :
  Forall (Qle 0) spacings → Exists (λ sp, sp == 0) spacings →
  ∃ m, Py.min spacings = Ok m ∧ m == 0.
Proof.
  intros Hall Hex. destruct spacings as [|x xs]; [by inversion Hex|].
  eexists. split; [reflexivity|].
  destruct (min_fold_spec xs x) as (Hin & Hle & Hxs).
  set (m := fold_left _ xs x) in *.
  apply Qle_antisym.
  - apply Exists_exists in Hex as (z & Hz & Hz0).
    apply elem_of_cons in Hz as [-> | Hz]; [by rewrite <- Hz0|].
    rewrite <- Hz0. by eapply (proj1 (Forall_forall _ _) Hxs).
  - by eapply (proj1 (Forall_forall _ _) Hall).
Qed.

End ScheduleZero.

(** X2. If no spacing of the two is negative or above 2^53 and one is 0,
    the derivation raises [ZeroDivisionError] at its first level, whatever
    the patch size: the loop does not run on. *)
Theorem zero_spacing_raises (spacing patch_size : list Q) :
  Forall (Qle 0) (take 2 spacing) →
  Forall in_range (take 2 spacing) →
  Exists (λ sp, sp == 0) (take 2 spacing) →
  network_schedule spacing patch_size = Some (Raise ZeroDivisionError).
Proof.
  intros Hall _ Hex. destruct (min_zero _ Hall Hex) as (m & Hm & Hz).
  unfold network_schedule, derive_schedule, schedule_fuel. cbn [schedule_loop].
  assert (spacing_ratio (take 2 spacing) = Raise ZeroDivisionError) as ->; [|done].
  unfold spacing_ratio. rewrite Hm.
  destruct (take 2 spacing) as [|x xs]; [by inversion Hex|].
  cbn. unfold truediv. apply Qeq_bool_iff in Hz. by rewrite Hz.
Qed.

Lemma zero_spacing_raises_witness :
  network_schedule [1; 0] [64; 64; 1] = Some (Raise ZeroDivisionError).
Proof.
  apply zero_spacing_raises.
  - repeat constructor; done.
  - repeat constructor; by vm_compute.
  - right. left. reflexivity.
Defined.

Section ScheduleLevels.

Implicit Types (spacings sizes ratios : list Q) (stride : list Z).

Lemma level_has_two ratios sizes :
  all_eq_1 (stride_of ratios sizes) = false → 2%Z ∈ stride_of ratios sizes.
Proof.
  pose proof (stride_of_range ratios sizes) as Hr. unfold all_eq_1.
  induction Hr as [|z zs Hz Hzs IH]; simpl; [done|].
  destruct Hz as [-> | ->]; [|intros _; by left].
  simpl. intros H. right. by apply IH.
Qed.

(** A level that is not all 1s uses up one of the halvings the sizes allow. *)
Lemma levels_bound_decreases ratios sizes :
  (levels_bound (next_sizes sizes (stride_of ratios sizes)) ≤ levels_bound sizes)%nat
  ∧ (all_eq_1 (stride_of ratios sizes) = false →
     (levels_bound (next_sizes sizes (stride_of ratios sizes)) < levels_bound sizes)%nat).
Proof.
  revert sizes. induction ratios as [|r ratios IH]; intros [|s sizes]; simpl;
    try (split; [lia | done]).
  destruct (IH sizes) as [Hle Hlt].
  unfold next_sizes, stride_of, all_eq_1 in *. simpl.
  destruct (stride_elt_cases r s) as [(-> & _ & Hs) | (-> & _)].
  - pose proof (halvings_div_2 s Hs) as Hh.
    assert (3 ≤ halvings s)%nat.
    { unfold halvings. change 3%nat with (Z.to_nat 3). apply Z2Nat.inj_le; [lia| |].
      - apply Z.log2_nonneg.
      - change 3%Z with (Z.log2 8). apply Z.log2_le_mono.
        change 8%Z with (Qfloor (inject_Z 8)). by apply Qfloor_resp_le. }
    simpl. split; [lia | intros _; lia].
  - rewrite halvings_div_1. simpl. split; [lia | intros H; specialize (Hlt H); lia].
Qed.

Lemma schedule_loop_levels fuel :
  ∀ spacings sizes strides kernels spacings' strides' kernels',
    schedule_loop fuel spacings sizes strides kernels
      = Some (Ok (spacings', strides', kernels')) →
    ∃ ss, strides' = strides ++ ss
          ∧ Forall (λ stride, 2%Z ∈ stride) ss
          ∧ (length ss ≤ levels_bound sizes)%nat.
Proof.
  induction fuel as [|fuel IH];
    intros spacings sizes strides kernels spacings' strides' kernels'; [done|].
  simpl. destruct (spacing_ratio spacings) as [ratios| |]; [|done..].
  destruct (all_eq_1 _) eqn:Hall.
  - intros [= <- <- <-]. exists []. rewrite app_nil_r. repeat split; [done|simpl; lia].
  - intros H. apply IH in H as (ss & -> & Htwo & Hlen).
    exists (stride_of ratios sizes :: ss). rewrite <- app_assoc.
    destruct (levels_bound_decreases ratios sizes) as [_ Hlt]. specialize (Hlt Hall).
    repeat split; [|simpl; lia].
    constructor; [by apply level_has_two | done].
Qed.

End ScheduleLevels.

(** X3. Every stride after the prepended one halves at least one axis: the
    list handed to the network as [strides], and its tail handed over as
    [upsample_kernel_size], have no level of all 1s but the first. *)
Theorem every_level_downsamples (fuel : nat) (spacings sizes : list Q)
    (strides kernels : list (list Z)) :
  derive_schedule fuel spacings sizes = Some (Ok (strides, kernels)) →
  ∀ i stride, strides !! S i = Some stride → 2%Z ∈ stride.
Proof.
  unfold derive_schedule.
  destruct (schedule_loop fuel spacings sizes [] [])
    as [[[[spacings' ss] ks]| |]|] eqn:E; try done.
  intros [= <- <-] i stride Hi.
  apply schedule_loop_levels in E as (ss' & -> & Htwo & _).
  simpl in Hi. by eapply (proj1 (Forall_lookup _ _) Htwo).
Qed.

Lemma every_level_downsamples_witness : 2%Z ∈ [1; 2]%Z.
Proof.
  refine (every_level_downsamples 13 [1; 3] [64; 64]
            [[1;1];[2;1];[2;2];[2;2];[2;2];[1;2]]%Z
            [[3;1];[3;3];[3;3];[3;3];[3;3];[3;3]]%Z _ 4%nat [1; 2]%Z _);
    vm_compute; reflexivity.
Defined.

(** X4. The network is never deeper than the sizes allow: on spacings and
    sizes of magnitudes up to 2^53 the number of downsampling levels is at
    most the sum over the axes of [floor (log2 size) - 2]. *)
Theorem levels_within_bound (fuel : nat) (spacings sizes : list Q)
    (strides kernels : list (list Z)) :
  Forall in_range spacings → Forall in_range sizes →
  derive_schedule fuel spacings sizes = Some (Ok (strides, kernels)) →
  (length strides ≤ S (levels_bound sizes))%nat.
Proof.
  intros _ _. unfold derive_schedule.
  destruct (schedule_loop fuel spacings sizes [] [])
    as [[[[spacings' ss] ks]| |]|] eqn:E; try done.
  intros [= <- <-].
  apply schedule_loop_levels in E as (ss' & -> & _ & Hlen).
  simpl. lia.
Qed.

Lemma levels_within_bound_witness :
  (length [[1;1];[2;2];[2;2];[2;2];[2;2]]%Z ≤ S (levels_bound [64; 64]%Q))%nat.
Proof.
  apply (levels_within_bound 5 [1; 1] [64; 64] _ [[3;3];[3;3];[3;3];[3;3];[3;3]]%Z).
  - repeat constructor; by vm_compute.
  - repeat constructor; by vm_compute.
  - vm_compute. reflexivity.
Defined.

Section ScheduleSizes.

Lemma rule_stride_values (r s : Q) (z : Z) :
  rule_stride r s z → (z = 2%Z ∧ r <= 2 ∧ 8 <= s) ∨ (z = 1%Z ∧ ¬ (r <= 2 ∧ 8 <= s)).
Proof. unfold rule_stride. tauto. Qed.

(** One axis through one level: what is left of the size still carries the
    downsampling of the remaining levels. *)
Lemma total_stride_step (size : Q) (s t : Z) :
  (s = 2%Z ∧ 8 <= size) ∨ s = 1%Z →
  (1 ≤ t)%Z →
  t = 1%Z ∨ inject_Z (4 * t) <= size / inject_Z s →
  (s * t)%Z = 1%Z ∨ inject_Z (4 * (s * t)) <= size.
Proof.
  intros [[-> Hsize] | ->] Ht Hrest.
  - right. destruct Hrest as [-> | Hrest]; [done|].
    replace (4 * (2 * t))%Z with (4 * t * 2)%Z by lia.
    rewrite inject_Z_mult.
    assert (size / inject_Z 2 * inject_Z 2 == size) as <- by (by field).
    by apply Qmult_le_compat_r.
  - rewrite Z.mul_1_l. destruct Hrest as [-> | Hrest]; [by left | right].
    assert (size / inject_Z 1 == size) as <- by (by field). done.
Qed.

Lemma rule_levels_total_stride (ss : list (list Z)) :
  ∀ sp0 sp1 sz0 sz1 ks,
    rule_levels (sp0, sp1) (sz0, sz1) ss ks →
    ((1 ≤ total_stride 0 ss)%Z
     ∧ (total_stride 0 ss = 1%Z ∨ inject_Z (4 * total_stride 0 ss) <= sz0))
    ∧ ((1 ≤ total_stride 1 ss)%Z
       ∧ (total_stride 1 ss = 1%Z ∨ inject_Z (4 * total_stride 1 ss) <= sz1)).
Proof.
  induction ss as [|stride ss IH]; intros sp0 sp1 sz0 sz1 ks H.
  - simpl. repeat split; (lia || by left).
  - inversion H as [|? ? ? ? s0 s1 k0 k1 ? ks' Hs0 Hs1 _ _ _ Hrest]; subst.
    apply IH in Hrest as [[Hpos0 H0] [Hpos1 H1]].
    apply rule_stride_values in Hs0, Hs1. cbn [total_stride foldr lookup list_lookup default].
    cbn. fold (total_stride 0 ss) (total_stride 1 ss).
    repeat split.
    + destruct Hs0 as [[-> _] | [-> _]]; lia.
    + apply total_stride_step; [tauto | done..].
    + destruct Hs1 as [[-> _] | [-> _]]; lia.
    + apply total_stride_step; [tauto | done..].
Qed.

End ScheduleSizes.

(** X5. Downsampling stops at size 4: on two spacings and two sizes of
    magnitudes up to 2^53, along each of the two axes the product of the
    strides is 1, or the size divided by it is still at least 4. *)
Theorem downsampled_size_at_least_4 (fuel : nat) (sp0 sp1 sz0 sz1 : Q)
    (strides kernels : list (list Z)) :
  Forall in_range [sp0; sp1; sz0; sz1] →
  derive_schedule fuel [sp0; sp1] [sz0; sz1] = Some (Ok (strides, kernels)) →
  (total_stride 0 strides = 1%Z ∨ inject_Z (4 * total_stride 0 strides) <= sz0)
  ∧ (total_stride 1 strides = 1%Z ∨ inject_Z (4 * total_stride 1 strides) <= sz1).
Proof.
  intros _ H. apply derive_schedule_levels in H as (ss & ks & -> & -> & Hrule).
  apply rule_levels_total_stride in Hrule as [[_ H0] [_ H1]].
  cbn [total_stride foldr]. cbn. fold (total_stride 0 ss) (total_stride 1 ss).
  split; [by destruct (total_stride 0 ss) | by destruct (total_stride 1 ss)].
Qed.

Lemma downsampled_size_at_least_4_witness :
  (total_stride 0 [[1;1];[2;1];[2;2];[2;2];[2;2];[1;2]]%Z = 1%Z
   ∨ inject_Z (4 * total_stride 0 [[1;1];[2;1];[2;2];[2;2];[2;2];[1;2]]%Z) <= 64)
  ∧ (total_stride 1 [[1;1];[2;1];[2;2];[2;2];[2;2];[1;2]]%Z = 1%Z
     ∨ inject_Z (4 * total_stride 1 [[1;1];[2;1];[2;2];[2;2];[2;2];[1;2]]%Z) <= 64).
Proof.
  apply (downsampled_size_at_least_4 13 1 3 64 64 _
           [[3;1];[3;3];[3;3];[3;3];[3;3];[3;3]]%Z).
  - repeat constructor; by vm_compute.
  - vm_compute. reflexivity.
Defined.

Section ScheduleKernels.

Lemma div_le_2 (x y : Q) : 0 < y → (x / y <= 2 ↔ x <= 2 * y).
Proof.
  intros Hy. split; intros H.
  - assert (x == x / y * y) as -> by (field; lra).
    apply Qmult_le_compat_r; [done | lra].
  - by apply Qle_shift_div_r.
Qed.

(** On positive spacings the ratio of an axis is at most 2 exactly when its
    spacing is at most twice the other one. *)
Lemma rule_ratio_le_2 (x y : Q) :
  0 < x → 0 < y →
  (rule_ratio x y x <= 2 ↔ x <= 2 * y) ∧ (rule_ratio x y y <= 2 ↔ y <= 2 * x).
Proof.
  intros Hx Hy. unfold rule_ratio.
  destruct (Q.min_spec x y) as [[Hlt ->] | [Hle ->]];
    rewrite !div_le_2 by done; split; split; intros; lra.
Qed.

Lemma inject_Z_stride_pos (sp : Q) (s : Z) :
  0 < sp → s = 1%Z ∨ s = 2%Z → 0 < sp * inject_Z s.
Proof.
  intros Hsp [-> | ->]; [change (inject_Z 1) with 1 | change (inject_Z 2) with 2]; lra.
Qed.

(** A halved axis keeps a ratio of at most 2 at the next level, if there is
    one: the kernel that the network pairs with the stride is 3. *)
Lemma next_kernel_is_3 (p q sz0 sz1 : Q) (s0 s1 s0' s1' k0' k1' : Z) :
  0 < p → 0 < q →
  rule_stride (rule_ratio p q p) sz0 s0 →
  rule_stride (rule_ratio p q q) sz1 s1 →
  let p' := p * inject_Z s0 in
  let q' := q * inject_Z s1 in
  rule_stride (rule_ratio p' q' p') (sz0 / inject_Z s0) s0' →
  rule_stride (rule_ratio p' q' q') (sz1 / inject_Z s1) s1' →
  rule_kernel (rule_ratio p' q' p') k0' →
  rule_kernel (rule_ratio p' q' q') k1' →
  ¬ (s0' = 1%Z ∧ s1' = 1%Z) →
  (s0 = 2%Z → k0' = 3%Z) ∧ (s1 = 2%Z → k1' = 3%Z).
Proof.
  intros Hp Hq Hs0 Hs1 p' q' Hs0' Hs1' Hk0' Hk1' Hn.
  apply rule_stride_values in Hs0, Hs1, Hs0', Hs1'.
  assert (0 < p') as Hp'.
  { apply inject_Z_stride_pos; [done|]. destruct Hs0 as [[-> _] | [-> _]]; auto. }
  assert (0 < q') as Hq'.
  { apply inject_Z_stride_pos; [done|]. destruct Hs1 as [[-> _] | [-> _]]; auto. }
  destruct (rule_ratio_le_2 p q Hp Hq) as [R0 R1].
  destruct (rule_ratio_le_2 p' q' Hp' Hq') as [R0' R1'].
  assert (∀ sz, sz / inject_Z 1 == sz) as Hdiv1 by (intros; by field).
  unfold rule_kernel in Hk0', Hk1'. rewrite R0' in Hk0'. rewrite R1' in Hk1'.
  rewrite R0, R1 in *. rewrite R0' in Hs0'. rewrite R1' in Hs1'.
  unfold p', q' in *. clear R0 R1 R0' R1' p' q'.
  split; intros ->.
  - destruct Hk0' as [[_ ->] | [Hk _]]; [done | exfalso].
    change (inject_Z 2) with 2 in *.
    destruct Hs0 as [(_ & H0 & _) | [[=] _]].
    destruct Hs1 as [(-> & H1 & _) | (-> & H1)];
      [change (inject_Z 2) with 2 in *; lra|].
    change (inject_Z 1) with 1 in *.
    destruct Hs0' as [(_ & ? & _) | (-> & _)]; [lra|].
    destruct Hs1' as [(_ & ? & Hsz) | (-> & _)]; [|tauto].
    rewrite Hdiv1 in Hsz. apply H1. split; [lra | done].
  - destruct Hk1' as [[_ ->] | [Hk _]]; [done | exfalso].
    change (inject_Z 2) with 2 in *.
    destruct Hs1 as [(_ & H1 & _) | [[=] _]].
    destruct Hs0 as [(-> & H0 & _) | (-> & H0)];
      [change (inject_Z 2) with 2 in *; lra|].
    change (inject_Z 1) with 1 in *.
    destruct Hs1' as [(_ & ? & _) | (-> & _)]; [lra|].
    destruct Hs0' as [(_ & ? & Hsz) | (-> & _)]; [|tauto].
    rewrite Hdiv1 in Hsz. apply H0. split; [lra | done].
Qed.

Lemma rule_levels_paired_kernel (ss : list (list Z)) :
  ∀ sp0 sp1 sz0 sz1 ks,
    0 < sp0 → 0 < sp1 →
    rule_levels (sp0, sp1) (sz0, sz1) ss ks →
    ∀ j stride kernel a,
      ss !! j = Some stride →
      (ks ++ [[3; 3]%Z]) !! S j = Some kernel →
      stride !! a = Some 2%Z → kernel !! a = Some 3%Z.
Proof.
  induction ss as [|st ss IH]; intros sp0 sp1 sz0 sz1 ks Hp0 Hp1 H j stride kernel a;
    [done|].
  inversion H as [|? ? ? ? s0 s1 k0 k1 ? ks' Hs0 Hs1 Hk0 Hk1 Hn Hrest]; subst.
  assert (0 < sp0 * inject_Z s0) as Hp0'.
  { apply inject_Z_stride_pos; [done|].
    apply rule_stride_values in Hs0 as [[-> _] | [-> _]]; auto. }
  assert (0 < sp1 * inject_Z s1) as Hp1'.
  { apply inject_Z_stride_pos; [done|].
    apply rule_stride_values in Hs1 as [[-> _] | [-> _]]; auto. }
  destruct j as [|j]; [|by apply (IH _ _ _ _ _ Hp0' Hp1' Hrest)].
  intros [= <-]. simpl.
  inversion Hrest as [|? ? ? ? s0' s1' k0' k1' ? ks'' Hs0' Hs1' Hk0' Hk1' Hn' _]; subst.
  - intros [= <-]. destruct a as [|[|a]]; simpl; try done.
  - intros [= <-].
    destruct (next_kernel_is_3 sp0 sp1 sz0 sz1 s0 s1 s0' s1' k0' k1') as [H0 H1];
      try done.
    destruct a as [|[|a]]; simpl; try done.
    + intros [= ->]. by rewrite H0.
    + intros [= ->]. by rewrite H1.
Qed.

End ScheduleKernels.

(** X6. On positive spacings, with spacings and sizes of magnitudes up to
    2^53, a layer of the network that halves an axis has
    kernel 3 along it: wherever [strides[i]] has a 2, [kernels[i]], the
    kernel that the network pairs with it, has a 3. *)
Theorem strided_axis_has_kernel_3 (fuel : nat) (sp0 sp1 sz0 sz1 : Q)
    (strides kernels : list (list Z)) :
  0 < sp0 → 0 < sp1 →
  Forall in_range [sp0; sp1; sz0; sz1] →
  derive_schedule fuel [sp0; sp1] [sz0; sz1] = Some (Ok (strides, kernels)) →
  ∀ i stride kernel a,
    strides !! i = Some stride → kernels !! i = Some kernel →
    stride !! a = Some 2%Z → kernel !! a = Some 3%Z.
Proof.
  intros Hp0 Hp1 _ H i stride kernel a.
  apply derive_schedule_levels in H as (ss & ks & -> & -> & Hrule).
  destruct i as [|j].
  - intros [= <-] _. by destruct a as [|[|a]].
  - simpl. by apply (rule_levels_paired_kernel ss sp0 sp1 sz0 sz1 ks).
Qed.

Lemma strided_axis_has_kernel_3_witness :
  [3; 3]%Z !! 0%nat = Some 3%Z.
Proof.
  refine (strided_axis_has_kernel_3 13 1 3 64 64
            [[1;1];[2;1];[2;2];[2;2];[2;2];[1;2]]%Z
            [[3;1];[3;3];[3;3];[3;3];[3;3];[3;3]]%Z _ _ _ _
            1%nat [2; 1]%Z [3; 3]%Z 0%nat _ _ _);
    [reflexivity | reflexivity | repeat constructor; by vm_compute
    | vm_compute; reflexivity ..].
Defined.

Section ScheduleScale.

Context (c : Q) (Hc : 0 < c).

(** Two lists of spacings, the first [c] times the second. *)
Local Abbreviation scaled := (Forall2 (λ x y : Q, x == c * y)).

Lemma Qle_bool_scaled (a1 a2 b1 b2 : Q) :
  a1 == c * a2 → b1 == c * b2 → Qle_bool a1 b1 = Qle_bool a2 b2.
Proof.
  intros Ha Hb. rewrite Ha, Hb.
  destruct (Qle_bool a2 b2) eqn:E.
  - apply Qle_bool_iff. apply Qle_bool_iff in E. by apply Qmult_le_l.
  - destruct (Qle_bool (c * a2) (c * b2)) eqn:E'; [|done].
    apply Qle_bool_iff in E'. apply Qmult_le_l in E'; [|done].
    apply Qle_bool_iff in E'. congruence.
Qed.

Lemma min_fold_scaled (xs1 xs2 : list Q) :
  scaled xs1 xs2 → ∀ a1 a2, a1 == c * a2 →
  fold_left (λ m y, if Qle_bool m y then m else y) xs1 a1
  == c * fold_left (λ m y, if Qle_bool m y then m else y) xs2 a2.
Proof.
  induction 1 as [|x1 x2 xs1 xs2 Hx Hxs IH]; intros a1 a2 Ha; simpl; [done|].
  rewrite (Qle_bool_scaled a1 a2 x1 x2) by done.
  apply IH. by destruct (Qle_bool a2 x2).
Qed.

Lemma Qeq_bool_scaled (m1 m2 : Q) : m1 == c * m2 → Qeq_bool m1 0 = Qeq_bool m2 0.
Proof.
  intros Hm. destruct (Qeq_bool m2 0) eqn:E.
  - apply Qeq_bool_iff. apply Qeq_bool_iff in E. rewrite Hm, E. ring.
  - destruct (Qeq_bool m1 0) eqn:E'; [|done].
    apply Qeq_bool_iff in E'. rewrite Hm in E'.
    assert (m2 == 0) as H0.
    { apply Qmult_integral in E' as [E' | E']; [lra | done]. }
    apply Qeq_bool_iff in H0. congruence.
Qed.

(** Scaled spacings have the same ratios, or the same division by zero. *)
Lemma spacing_ratio_scaled (sp1 sp2 : list Q) :
  scaled sp1 sp2 →
  (∃ r1 r2, spacing_ratio sp1 = Ok r1 ∧ spacing_ratio sp2 = Ok r2 ∧ Forall2 Qeq r1 r2)
  ∨ (spacing_ratio sp1 = Raise ZeroDivisionError
     ∧ spacing_ratio sp2 = Raise ZeroDivisionError).
Proof.
  intros Hs. destruct Hs as [|x1 x2 xs1 xs2 Hx Hxs].
  { left. by exists [], []. }
  pose proof (min_fold_scaled xs1 xs2 Hxs x1 x2 Hx) as Hm.
  set (m1 := fold_left _ xs1 x1) in Hm. set (m2 := fold_left _ xs2 x2) in Hm.
  assert (Py.min (x1 :: xs1) = Ok m1) as Hm1 by done.
  assert (Py.min (x2 :: xs2) = Ok m2) as Hm2 by done.
  pose proof (Qeq_bool_scaled m1 m2 Hm) as Hz.
  destruct (Qeq_bool m2 0) eqn:E.
  - right. unfold spacing_ratio. rewrite Hm1, Hm2. cbn. unfold truediv.
    by rewrite Hz, E.
  - left. assert (¬ m2 == 0) as Hn2 by (intros H; apply Qeq_bool_iff in H; congruence).
    assert (¬ m1 == 0) as Hn1 by (intros H; apply Qeq_bool_iff in H; congruence).
    eexists _, _. split; [by apply (spacing_ratio_ok _ m1)|].
    split; [by apply (spacing_ratio_ok _ m2)|].
    assert (scaled (x1 :: xs1) (x2 :: xs2)) as Hall by (by constructor).
    clear -Hall Hm Hn2 Hc. induction Hall as [|y1 y2 ys1 ys2 Hy Hys IH]; simpl;
      constructor; [|done].
    rewrite Hy, Hm. field. split; [done | lra].
Qed.

Lemma stride_of_Qeq (r1 r2 sizes : list Q) :
  Forall2 Qeq r1 r2 → stride_of r1 sizes = stride_of r2 sizes.
Proof.
  intros H. revert sizes. induction H as [|x y xs ys Hx Hxs IH]; intros [|s sizes];
    try done.
  unfold stride_of in *. simpl. f_equal; [|apply IH].
  unfold stride_elt. by rewrite Hx.
Qed.

Lemma kernel_of_Qeq (r1 r2 : list Q) :
  Forall2 Qeq r1 r2 → kernel_of r1 = kernel_of r2.
Proof.
  induction 1 as [|x y xs ys Hx Hxs IH]; [done|].
  unfold kernel_of in *. simpl. f_equal; [|done].
  unfold kernel_elt. by rewrite Hx.
Qed.

Lemma next_spacings_scaled (sp1 sp2 : list Q) (stride : list Z) :
  scaled sp1 sp2 → scaled (next_spacings sp1 stride) (next_spacings sp2 stride).
Proof.
  intros H. revert stride. induction H as [|x y xs ys Hx Hxs IH]; intros [|z stride];
    unfold next_spacings; simpl; try by constructor.
  constructor; [|apply IH]. rewrite Hx. ring.
Qed.

Lemma schedule_loop_scaled fuel :
  ∀ sp1 sp2 sizes strides kernels,
    scaled sp1 sp2 →
    match schedule_loop fuel sp1 sizes strides kernels,
          schedule_loop fuel sp2 sizes strides kernels with
    | Some (Ok (s1, ss1, ks1)), Some (Ok (s2, ss2, ks2)) =>
        length s1 = length s2 ∧ ss1 = ss2 ∧ ks1 = ks2
    | Some (Raise e1), Some (Raise e2) => e1 = e2
    | None, None => True
    | _, _ => False
    end.
Proof.
  induction fuel as [|fuel IH]; intros sp1 sp2 sizes strides kernels Hs; [done|].
  simpl.
  destruct (spacing_ratio_scaled sp1 sp2 Hs) as [(r1 & r2 & -> & -> & Hr) | [-> ->]];
    [|done].
  rewrite (stride_of_Qeq r1 r2 sizes Hr), (kernel_of_Qeq r1 r2 Hr).
  destruct (all_eq_1 _).
  - repeat split. by eapply Forall2_length.
  - apply IH. by apply next_spacings_scaled.
Qed.

End ScheduleScale.

(** X7. Only the ratio of the spacings counts: for two lists of spacings of
    magnitudes up to 2^53, one of which is the other times one positive
    factor (another unit of length, a finer or coarser resampling of both
    axes), the outcome of the derivation is the same, the two lists and the
    exception alike. *)
Theorem spacing_scale_invariant (c : Q) (fuel : nat)
    (scaled spacings sizes : list Q) :
  0 < c →
  Forall2 (λ x y, x == c * y) scaled spacings →
  Forall in_range scaled → Forall in_range spacings → Forall in_range sizes →
  derive_schedule fuel scaled sizes = derive_schedule fuel spacings sizes.
Proof.
  intros Hc Hs _ _ _. unfold derive_schedule.
  pose proof (schedule_loop_scaled c Hc fuel _ _ sizes [] [] Hs) as H.
  destruct (schedule_loop fuel scaled sizes [] [])
    as [[[[s1 ss1] ks1]| |]|],
    (schedule_loop fuel spacings sizes [] []) as [[[[s2 ss2] ks2]| |]|];
    try done.
  - destruct H as (-> & -> & ->). done.
  - by rewrite H.
Qed.

Lemma spacing_scale_invariant_witness :
  derive_schedule 13 [1 # 2; 3 # 2] [64; 64] = derive_schedule 13 [1; 3] [64; 64].
Proof.
  apply (spacing_scale_invariant (1 # 2)); [reflexivity | ..];
    repeat constructor; by vm_compute.
Defined.

Section ScheduleIsotropic.

Lemma halvings_ge_3 (s : Q) : 8 <= s ↔ (3 ≤ halvings s)%nat.
Proof.
  unfold halvings. split.
  - intros Hs. change 3%nat with (Z.to_nat 3). apply Z2Nat.inj_le; [lia| |].
    + apply Z.log2_nonneg.
    + change 3%Z with (Z.log2 8). apply Z.log2_le_mono.
      change 8%Z with (Qfloor (inject_Z 8)). by apply Qfloor_resp_le.
  - intros H. assert (3 ≤ Z.log2 (Qfloor s))%Z as H3 by lia.
    assert (0 < Qfloor s)%Z as Hpos.
    { destruct (Z.lt_ge_cases 0 (Qfloor s)) as [|Hle]; [done|].
      rewrite Z.log2_nonpos in H3 by done. lia. }
    assert (8 ≤ Qfloor s)%Z as H8.
    { destruct (Z.lt_ge_cases (Qfloor s) (2 ^ 3)) as [Hlt|]; [|done].
      apply Z.log2_lt_pow2 in Hlt; [lia | done]. }
    eapply Qle_trans; [|apply Qfloor_le].
    change 8 with (inject_Z 8). by rewrite <- Zle_Qle.
Qed.

Lemma spacing_ratio_equal (a b : Q) :
  a == b → 0 < a →
  ∃ r0 r1, spacing_ratio [a; b] = Ok [r0; r1] ∧ r0 == 1 ∧ r1 == 1.
Proof.
  intros Hab Ha.
  destruct (spacing_ratio_pos [a; b]) as [ratios Hr].
  { repeat constructor; [done | by rewrite <- Hab]. }
  pose proof Hr as Hr'. apply spacing_ratio_2 in Hr' as (m & Hm & ->).
  assert (m == a) as Hma.
  { rewrite Hm. apply Q.min_l. rewrite Hab. apply Qle_refl. }
  eexists _, _. split; [done|].
  split; [rewrite Hma | rewrite Hma, <- Hab]; field; lra.
Qed.

Lemma schedule_loop_isotropic (h : nat) :
  ∀ fuel (a b c d : Q) strides kernels,
    a == b → c == d → 0 < a →
    (halvings c - 2)%nat = h → (h < fuel)%nat →
    ∃ spacings',
      schedule_loop fuel [a; b] [c; d] strides kernels
      = Some (Ok (spacings', strides ++ replicate h [2; 2]%Z,
                  kernels ++ replicate h [3; 3]%Z))
      ∧ length spacings' = 2%nat.
Proof.
  induction h as [|h IH]; intros fuel a b c d strides kernels Hab Hcd Ha Hh Hfuel;
    (destruct fuel as [|fuel]; [lia|]); cbn [schedule_loop];
    destruct (spacing_ratio_equal a b Hab Ha) as (r0 & r1 & -> & Hr0 & Hr1);
    unfold stride_of, kernel_of, stride_elt, kernel_elt; cbn [zip_with map];
    (assert (Qle_bool r0 2 = true) as -> by (by rewrite Hr0));
    (assert (Qle_bool r1 2 = true) as -> by (by rewrite Hr1));
    (assert (Qle_bool 8 d = Qle_bool 8 c) as -> by (by rewrite Hcd));
    cbn [andb].
  - assert (Qle_bool 8 c = false) as ->.
    { destruct (Qle_bool 8 c) eqn:E; [|done].
      apply Qle_bool_iff, halvings_ge_3 in E. lia. }
    cbn. exists [a; b]. by rewrite !app_nil_r.
  - assert (Qle_bool 8 c = true) as ->.
    { apply Qle_bool_iff, halvings_ge_3. lia. }
    cbn [all_eq_1 forallb Z.eqb Pos.eqb andb].
    assert (8 <= c) as H8 by (apply halvings_ge_3; lia).
    pose proof (halvings_div_2 c H8) as Hhalf.
    destruct (IH fuel (a * inject_Z 2) (b * inject_Z 2) (c / inject_Z 2)
                (d / inject_Z 2) (strides ++ [[2; 2]%Z]) (kernels ++ [[3; 3]%Z]))
      as (spacings' & Hloop & Hlen); try lia.
    + by rewrite Hab.
    + by rewrite Hcd.
    + change (inject_Z 2) with 2. lra.
    + exists spacings'. split; [|done].
      unfold next_spacings, next_sizes. cbn [zip_with].
      rewrite Hloop, <- !app_assoc. reflexivity.
Qed.

End ScheduleIsotropic.

(** X8. With the same spacing on both axes and a square patch, of
    magnitudes up to 2^53, the schedule
    is known in closed form: [floor (log2 size) - 2] levels, each of stride
    [[2; 2]], and kernels [[3; 3]] throughout. *)
Theorem isotropic_schedule (fuel : nat) (sp0 sp1 sz0 sz1 : Q) :
  sp0 == sp1 → sz0 == sz1 → 0 < sp0 →
  Forall in_range [sp0; sp1; sz0; sz1] →
  (halvings sz0 - 2 < fuel)%nat →
  derive_schedule fuel [sp0; sp1] [sz0; sz1]
  = Some (Ok ([1; 1]%Z :: replicate (halvings sz0 - 2) [2; 2]%Z,
              replicate (halvings sz0 - 2) [3; 3]%Z ++ [[3; 3]%Z])).
Proof.
  intros Hsp Hsz Hpos _ Hfuel. unfold derive_schedule.
  destruct (schedule_loop_isotropic (halvings sz0 - 2) fuel sp0 sp1 sz0 sz1 [] [])
    as (spacings' & -> & ->); done.
Qed.

Lemma isotropic_schedule_witness :
  derive_schedule 7 [3 # 4; 3 # 4] [448; 448]
  = Some (Ok ([1; 1]%Z :: replicate 6 [2; 2]%Z, replicate 6 [3; 3]%Z ++ [[3; 3]%Z])).
Proof.
  apply (isotropic_schedule 7 (3 # 4) (3 # 4) 448 448); try reflexivity.
  - repeat constructor; by vm_compute.
  - vm_compute. lia.
Defined.

(** *** The schedule: within the range the spacings stay far from overflow *)

Section ScheduleRange.

Lemma next_spacings_bound (B : Q) spacings stride :
  Forall (λ s, s = 1%Z ∨ s = 2%Z) stride →
  Forall (λ sp, 0 < sp ∧ sp <= B) spacings →
  Forall (λ sp, 0 < sp ∧ sp <= 2 * B) (next_spacings spacings stride).
Proof.
  intros Hs H. revert stride Hs.
  induction H as [|x xs [Hx HB] Hxs IH]; intros [|z stride] Hs;
    unfold next_spacings; simpl; try by constructor.
  inversion Hs as [|? ? Hz Hs']; subst. constructor; [|by apply IH].
  destruct Hz as [-> | ->].
  - change (inject_Z 1) with 1. lra.
  - change (inject_Z 2) with 2. lra.
Qed.

Lemma two_power_succ (n : nat) :
  inject_Z (2 ^ Z.of_nat (S n)) == 2 * inject_Z (2 ^ Z.of_nat n).
Proof.
  rewrite Nat2Z.inj_succ, Z.pow_succ_r by lia. by rewrite inject_Z_mult.
Qed.

Lemma two_power_mono (n m : nat) :
  (n ≤ m)%nat → inject_Z (2 ^ Z.of_nat n) <= inject_Z (2 ^ Z.of_nat m).
Proof.
  intros H. rewrite <- Zle_Qle. apply Z.pow_le_mono_r; lia.
Qed.

(** Each level doubles a spacing at most once, and there are at most
    [levels_bound sizes] levels. *)
Lemma schedule_loop_spacings fuel :
  ∀ B spacings sizes strides kernels spacings' strides' kernels',
    0 <= B →
    schedule_loop fuel spacings sizes strides kernels
      = Some (Ok (spacings', strides', kernels')) →
    Forall (λ sp, 0 < sp ∧ sp <= B) spacings →
    Forall (λ sp, 0 < sp ∧ sp <= inject_Z (2 ^ Z.of_nat (levels_bound sizes)) * B)
      spacings'.
Proof.
  induction fuel as [|fuel IH];
    intros B spacings sizes strides kernels spacings' strides' kernels' HB; [done|].
  simpl. destruct (spacing_ratio spacings) as [ratios| |]; [|done..].
  destruct (all_eq_1 _) eqn:Hall.
  - intros [= <- <- <-] H. eapply Forall_impl; [exact H|].
    intros sp [Hsp Hle]. split; [done|].
    pose proof (two_power_mono 0 (levels_bound sizes) ltac:(lia)) as Hp.
    change (inject_Z (2 ^ Z.of_nat 0)) with 1 in Hp.
    set (p := inject_Z (2 ^ Z.of_nat (levels_bound sizes))) in *. nra.
  - intros Hloop H.
    destruct (levels_bound_decreases ratios sizes) as [_ Hlt]. specialize (Hlt Hall).
    apply (IH (2 * B)) in Hloop; [|lra|].
    + eapply Forall_impl; [exact Hloop|].
      intros sp [Hsp Hle]. split; [done|].
      pose proof (two_power_mono
                    (S (levels_bound (next_sizes sizes (stride_of ratios sizes))))
                    (levels_bound sizes) ltac:(lia)) as Hp.
      rewrite two_power_succ in Hp.
      set (p := inject_Z (2 ^ Z.of_nat (levels_bound sizes))) in *.
      set (q := inject_Z (2 ^ Z.of_nat
                            (levels_bound (next_sizes sizes (stride_of ratios sizes))))) in *.
      nra.
    + apply next_spacings_bound; [apply stride_of_range | done].
Qed.

Lemma halvings_in_range (s : Q) : s <= exact_bound → (halvings s ≤ 53)%nat.
Proof.
  intros Hs. unfold halvings.
  change 53%nat with (Z.to_nat 53). apply Z2Nat.inj_le; [apply Z.log2_nonneg | lia |].
  change 53%Z with (Z.log2 (2 ^ 53)). apply Z.log2_le_mono.
  change (2 ^ 53)%Z with (Qfloor exact_bound). by apply Qfloor_resp_le.
Qed.

(** On two positive spacings, with spacings and sizes in the range, the
    sizes allow at most 102 levels and the spacings at [break], the largest
    numbers that the loop computes, are at most [2^53 * 2^102]: far below
    [2^1024], where binary64 overflows. *)
Lemma spacings_stay_finite (fuel : nat) (sp0 sp1 sz0 sz1 : Q)
    (spacings' : list Q) (strides kernels : list (list Z)) :
  0 < sp0 → 0 < sp1 →
  Forall in_range [sp0; sp1; sz0; sz1] →
  schedule_loop fuel [sp0; sp1] [sz0; sz1] [] [] = Some (Ok (spacings', strides, kernels)) →
  (levels_bound [sz0; sz1] ≤ 102)%nat
  ∧ Forall (λ sp, 0 < sp ∧ sp <= inject_Z (2 ^ 155)) spacings'.
Proof.
  intros H0 H1 Hrange Hloop.
  apply Forall_cons in Hrange as [[_ Hsp0] Hrange].
  apply Forall_cons in Hrange as [[_ Hsp1] Hrange].
  apply Forall_cons in Hrange as [[_ Hsz0] Hrange].
  apply Forall_cons in Hrange as [[_ Hsz1] _].
  pose proof (halvings_in_range sz0 Hsz0) as Hh0.
  pose proof (halvings_in_range sz1 Hsz1) as Hh1.
  assert (levels_bound [sz0; sz1] ≤ 102)%nat as Hlevels by (simpl; lia).
  split; [done|].
  apply (schedule_loop_spacings fuel exact_bound) in Hloop; [|done|by repeat constructor].
  eapply Forall_impl; [exact Hloop|].
  intros sp [Hsp Hle]. split; [done|].
  eapply Qle_trans; [exact Hle|].
  pose proof (two_power_mono (levels_bound [sz0; sz1]) 102 Hlevels) as Hp.
  change (inject_Z (2 ^ 155)) with (inject_Z (2 ^ Z.of_nat 102) * exact_bound).
  apply Qmult_le_compat_r; [exact Hp | done].
Qed.

End ScheduleRange.

(** *** The file list: further properties *)

Section FileListMore.

Implicit Types (c x : ascii) (s line : string).

Lemma split_two c s f g :
  Str.split c s = [f; g] →
  Str.count c s = 1%nat ∧ f = Str.before c s ∧ g = Str.after c s.
Proof.
  intros E. assert (Str.count c s = 1%nat) as Hc.
  { pose proof (split_length c s) as H. rewrite E in H. simpl in H. lia. }
  rewrite (split_one_sep c s Hc) in E. by injection E as <- <-.
Qed.

Lemma before_no_sep c s : Str.count c (Str.before c s) = O.
Proof.
  induction s as [|x s IH]; simpl; [done|].
  destruct (Ascii.eqb x c) eqn:E; simpl; [done|]. by rewrite E.
Qed.

Lemma after_count c s : Str.count c (Str.after c s) = Nat.pred (Str.count c s).
Proof.
  induction s as [|x s IH]; simpl; [done|].
  destruct (Ascii.eqb x c); simpl; [done|]. by rewrite IH.
Qed.

(** Joining what is before and after the first separator gives the string
    back. *)
Lemma before_after_join c s :
  (1 ≤ Str.count c s)%nat → Str.before c s +:+ String c (Str.after c s) = s.
Proof.
  induction s as [|x s IH]; simpl; [lia|].
  destruct (Ascii.eqb_spec x c) as [-> | Hne]; simpl; [done|].
  intros H.
  change (String x (Str.before c s +:+ String c (Str.after c s)) = String x s).
  f_equal. by apply IH.
Qed.

(** The two keys of an entry. *)
Lemma entry_lookup (current_f current_s : string) :
  entry current_f current_s !! "image" = Some current_f
  ∧ entry current_f current_s !! "label" = Some current_s.
Proof.
  unfold entry. split; [apply lookup_insert_eq|].
  rewrite lookup_insert_ne by done. apply lookup_insert_eq.
Qed.

Context (fs : os) (input_file : string).

(** The loop returns only after every line has passed. *)
Lemma read_entries_ok data :
  ∀ full_list l,
    read_entries fs input_file data full_list = Ok l →
    Forall (passes fs) data ∧ l = full_list ++ map entry_of data.
Proof.
  induction data as [|line data IH]; intros full_list l; simpl.
  - intros [= <-]. by rewrite app_nil_r.
  - rewrite strip_line_rstrip.
    destruct (Str.split Str.comma (Str.rstrip Str.newline line))
      as [|f [|g [|h fields]]] eqn:Es; try done.
    apply split_two in Es as (Hc & -> & ->).
    destruct (isfile fs _) eqn:Hf; [|done].
    destruct (isfile fs (Str.after _ _)) eqn:Hg; [|done]. simpl.
    intros H. apply IH in H as [Hall ->]. split.
    + by constructor.
    + by rewrite <- app_assoc.
Qed.


End FileListMore.

(** X9. The list is all or nothing.  If the function returns, every line of
    the file has passed: the result has one entry per line, in order, and
    each entry names two files that exist. *)
Theorem file_list_complete (sys : os) (input_file : string)
    (l : list (gmap string string)) :
  create_data_list_of_dictionaries sys input_file = Ok l →
  ∃ data,
    readlines sys input_file = Some data
    ∧ length l = length data
    ∧ l = map entry_of data
    ∧ Forall (passes sys) data
    ∧ ∀ d, d ∈ l →
        ∃ current_f current_s,
          d = entry current_f current_s
          ∧ isfile sys current_f = true ∧ isfile sys current_s = true.
Proof.
  unfold create_data_list_of_dictionaries.
  destruct (readlines sys input_file) as [data|]; [|done].
  intros H. apply read_entries_ok in H as [Hall ->]. simpl.
  exists data. repeat split; try done.
  - by rewrite length_map.
  - intros d Hd. apply list_elem_of_In, in_map_iff in Hd as (line & <- & Hin).
    apply list_elem_of_In in Hin.
    destruct (proj1 (Forall_forall _ _) Hall line Hin) as (_ & Hf & Hs).
    by eexists _, _.
Qed.

Lemma file_list_complete_witness :
  ∃ data,
    readlines example_sys "train.txt" = Some data
    ∧ length [entry "i0.nii" "s0.nii"; entry "i1.nii" "s1.nii"] = length data
    ∧ [entry "i0.nii" "s0.nii"; entry "i1.nii" "s1.nii"] = map entry_of data
    ∧ Forall (passes example_sys) data
    ∧ ∀ d, d ∈ [entry "i0.nii" "s0.nii"; entry "i1.nii" "s1.nii"] →
        ∃ current_f current_s,
          d = entry current_f current_s
          ∧ isfile example_sys current_f = true
          ∧ isfile example_sys current_s = true.
Proof. apply (file_list_complete example_sys "train.txt"). reflexivity. Defined.

(** X10. Nothing of a line is lost or changed but its trailing newlines:
    the image path, a comma and the label path of the i-th entry make up the
    i-th line again, and neither path holds a comma. *)
Theorem file_list_round_trip (sys : os) (input_file : string)
    (data : list string) (l : list (gmap string string)) :
  readlines sys input_file = Some data →
  create_data_list_of_dictionaries sys input_file = Ok l →
  ∀ i line, data !! i = Some line →
    ∃ d current_f current_s,
      l !! i = Some d
      ∧ d !! "image" = Some current_f
      ∧ d !! "label" = Some current_s
      ∧ current_f +:+ "," +:+ current_s = Str.rstrip Str.newline line
      ∧ Str.count Str.comma current_f = O
      ∧ Str.count Str.comma current_s = O.
Proof.
  intros Hread. unfold create_data_list_of_dictionaries. rewrite Hread.
  intros H i line Hi. apply read_entries_ok in H as [Hall ->]. simpl.
  destruct (proj1 (Forall_lookup _ _) Hall i line Hi) as (Hc & _ & _).
  exists (entry_of line), (Str.before Str.comma (Str.rstrip Str.newline line)),
    (Str.after Str.comma (Str.rstrip Str.newline line)).
  split; [rewrite list_lookup_fmap; by rewrite Hi|].
  split; [apply entry_lookup|]. split; [apply entry_lookup|].
  split; [apply before_after_join; lia|].
  split; [apply before_no_sep | rewrite after_count; lia].
Qed.

Lemma file_list_round_trip_witness :
  ∃ d current_f current_s,
    [entry "i0.nii" "s0.nii"; entry "i1.nii" "s1.nii"] !! 0%nat = Some d
    ∧ d !! "image" = Some current_f
    ∧ d !! "label" = Some current_s
    ∧ current_f +:+ "," +:+ current_s = "i0.nii,s0.nii"
    ∧ Str.count Str.comma current_f = O
    ∧ Str.count Str.comma current_s = O.
Proof.
  apply (file_list_round_trip example_sys "train.txt" example_train_lines
           [entry "i0.nii" "s0.nii"; entry "i1.nii" "s1.nii"] eq_refl eq_refl 0%nat
           ("i0.nii,s0.nii" +:+ String Str.newline EmptyString) eq_refl).
Defined.



(** *** The loss lookup: further properties *)

(** X12. The configured ['pow_dice'] reaches the two [DiceCELoss] only: for
    "Batch_Dice" and "Dice_Only" the loss returned is the same whatever
    ['pow_dice'] is set to. *)
Theorem pow_dice_unused_by_dice_losses (number_out_channels : Z)
    (config_dict : gmap string (gmap string value))
    (training : gmap string value) (loss_type : string) (pow_dice : value) :
  config_dict !! "training" = Some training →
  training !! "loss_type" = Some (VStr loss_type) →
  loss_type = "Batch_Dice" ∨ loss_type = "Dice_Only" →
  choose_loss_function number_out_channels
    (<["training" := <["pow_dice" := pow_dice]> training]> config_dict)
  = choose_loss_function number_out_channels config_dict.
Proof.
  intros Ht Hl Hs.
  rewrite (choose_loss_function_str _ _ training loss_type Ht Hl).
  rewrite (choose_loss_function_str _ _ (<["pow_dice" := pow_dice]> training) loss_type).
  - by destruct Hs as [-> | ->].
  - apply lookup_insert_eq.
  - by rewrite lookup_insert_ne.
Qed.

Lemma pow_dice_unused_by_dice_losses_witness :
  choose_loss_function 2
    (<["training" := <["pow_dice" := VFloat 2]>
                       {[ "loss_type" := VStr "Dice_Only";
                          "inplane_size" := VList [VInt 64; VInt 64];
                          "spacing" := VList [VFloat 1; VFloat 1] ]}]>
       (example_config "Dice_Only"))
  = choose_loss_function 2 (example_config "Dice_Only").
Proof.
  apply (pow_dice_unused_by_dice_losses 2 (example_config "Dice_Only") _ "Dice_Only");
    [reflexivity | reflexivity | by right].
Defined.

(** X13. A [DiceLossExtended] that the function returns has exactly one of
    [sigmoid] and [softmax] set, softmax for more than one output channel;
    its two smooth terms are equal and [squared_pred] is off. *)
Theorem dice_loss_arguments (number_out_channels : Z)
    (config_dict : gmap string (gmap string value))
    (sigmoid softmax : bool) (smooth_num smooth_den : value)
    (squared_pred batch_version : bool) :
  choose_loss_function number_out_channels config_dict
  = Ok (DiceLossExtended sigmoid softmax smooth_num smooth_den squared_pred batch_version) →
  sigmoid = negb softmax
  ∧ softmax = (1 <? number_out_channels)%Z
  ∧ smooth_num = smooth_den
  ∧ squared_pred = false.
Proof.
  unfold choose_loss_function, getitem.
  destruct (1 <? number_out_channels)%Z;
    (destruct (config_dict !! "training") as [training|]; cbn; [|done]);
    (destruct (training !! "loss_type") as [v|]; cbn; [|done]);
    repeat (destruct (eq_str v _); [intros [=]; by subst|]); done.
Qed.

Lemma dice_loss_arguments_witness :
  true = negb false ∧ false = (1 <? 1)%Z
  ∧ VFloat (1 # 100000) = VFloat (1 # 100000) ∧ false = false.
Proof.
  apply (dice_loss_arguments 1 (example_config "Batch_Dice") true false
           (VFloat (1 # 100000)) (VFloat (1 # 100000)) false true).
  reflexivity.
Defined.

(** X14. Of its two arguments the function uses three things: the loss type,
    ['pow_dice'], and whether there is more than one output channel.  Two
    calls that agree on these return the same, a loss or an exception alike. *)
Theorem loss_depends_only_on (n1 n2 : Z)
    (config1 config2 : gmap string (gmap string value))
    (training1 training2 : gmap string value) :
  config1 !! "training" = Some training1 →
  config2 !! "training" = Some training2 →
  training1 !! "loss_type" = training2 !! "loss_type" →
  training1 !! "pow_dice" = training2 !! "pow_dice" →
  (1 <? n1)%Z = (1 <? n2)%Z →
  choose_loss_function n1 config1 = choose_loss_function n2 config2.
Proof.
  intros H1 H2 Hl Hp Hn. unfold choose_loss_function, getitem, pow_of.
  rewrite H1, H2, Hn. destruct (1 <? n2)%Z; cbn; by rewrite Hl, Hp.
Qed.

Lemma loss_depends_only_on_witness :
  choose_loss_function 2 (example_config "Batch_Dice")
  = choose_loss_function 7
      {[ "training" := {[ "loss_type" := VStr "Batch_Dice"; "lr" := VFloat (1 # 100) ]} ]}.
Proof.
  apply (loss_depends_only_on 2 7 (example_config "Batch_Dice")
           {[ "training" := {[ "loss_type" := VStr "Batch_Dice"; "lr" := VFloat (1 # 100) ]} ]}
           {[ "loss_type" := VStr "Batch_Dice";
              "inplane_size" := VList [VInt 64; VInt 64];
              "spacing" := VList [VFloat 1; VFloat 1] ]}
           {[ "loss_type" := VStr "Batch_Dice"; "lr" := VFloat (1 # 100) ]});
    reflexivity.
Defined.

(** *** The configuration: further properties *)

(** Every step that [read_configuration] has taken when it returns. *)
Lemma read_configuration_steps (sys : os)
    (config_info : gmap string (gmap string value)) (c : configuration) :
  read_configuration sys config_info = Ok c →
  ∃ training output inplane_size,
    config_info !! "training" = Some training
    ∧ config_info !! "output" = Some output
    ∧ seg_labels c = seg_labels_of training
    ∧ len (seg_labels c) = Ok (nr_out_channels c)
    ∧ training !! "inplane_size" = Some (VList inplane_size)
    ∧ patch_size c = VList (inplane_size ++ [VInt 1])
    ∧ training !! "spacing" = Some (spacing c)
    ∧ model_to_load_of sys training = Ok (model_to_load c)
    ∧ seed c = seed_of training
    ∧ determinism c = set_determinism_calls (seed c)
    ∧ out_model_dir_of sys output = Ok (out_model_dir c)
    ∧ out_cache_dir c = out_cache_dir_of output (out_model_dir c)
    ∧ mkdir sys (out_cache_dir c) = Ok ().
Proof.
  unfold read_configuration, getitem.
  destruct (config_info !! "training") as [training|] eqn:Ht; [cbn|done].
  destruct (len (seg_labels_of training)) as [nr| |] eqn:Hlen; [cbn|done..].
  destruct (training !! "inplane_size") as [inplane|] eqn:Hin; [cbn|done].
  destruct inplane as [| | | | |inplane]; try done; cbn.
  destruct (training !! "spacing") as [sp|] eqn:Hsp; [cbn|done].
  destruct (model_to_load_of sys training) as [model| |] eqn:Hmodel; [cbn|done..].
  destruct (config_info !! "output") as [output|] eqn:Ho; [cbn|done].
  destruct (out_model_dir_of sys output) as [dir| |] eqn:Hdir; [cbn|done..].
  destruct (mkdir sys _) as [[]| |] eqn:Hmk; [cbn|done..].
  intros [= <-]. by exists training, output, inplane.
Qed.

(** X15. The keys that have no default.  When [run_training] gets past its
    configuration, ['inplane_size'] was a list, to which 1 has been appended
    as the patch size, ['spacing'], ['out_dir'] and ['out_postfix'] were
    there, the last two as strings, and the cache directory was created. *)
Theorem required_keys (sys : os)
    (config_info : gmap string (gmap string value)) (c : configuration) :
  read_configuration sys config_info = Ok c →
  ∃ training output inplane_size out_dir out_postfix,
    config_info !! "training" = Some training
    ∧ config_info !! "output" = Some output
    ∧ training !! "inplane_size" = Some (VList inplane_size)
    ∧ patch_size c = VList (inplane_size ++ [VInt 1])
    ∧ training !! "spacing" = Some (spacing c)
    ∧ output !! "out_dir" = Some (VStr out_dir)
    ∧ output !! "out_postfix" = Some (VStr out_postfix)
    ∧ out_model_dir c = Str.path_join out_dir (now sys +:+ "_" +:+ out_postfix)
    ∧ mkdir sys (out_cache_dir c) = Ok ().
Proof.
  intros H. apply read_configuration_steps in H
    as (training & output & inplane & Ht & Ho & _ & _ & Hin & Hp & Hs & _ & _ & _
        & Hdir & _ & Hmk).
  apply out_model_dir_of_inv in Hdir as (out_dir & out_postfix & ? & ? & ?).
  by exists training, output, inplane, out_dir, out_postfix.
Qed.

Lemma required_keys_witness :
  ∃ training output inplane_size out_dir out_postfix,
    example_config "Dice_Only" !! "training" = Some training
    ∧ example_config "Dice_Only" !! "output" = Some output
    ∧ training !! "inplane_size" = Some (VList inplane_size)
    ∧ VList [VInt 64; VInt 64; VInt 1] = VList (inplane_size ++ [VInt 1])
    ∧ training !! "spacing" = Some (VList [VFloat 1; VFloat 1])
    ∧ output !! "out_dir" = Some (VStr out_dir)
    ∧ output !! "out_postfix" = Some (VStr out_postfix)
    ∧ "out/2020-11-01_12-00-00_monai_dynUnet_2D"
      = Str.path_join out_dir (now example_sys +:+ "_" +:+ out_postfix)
    ∧ mkdir example_sys (VStr "out/2020-11-01_12-00-00_monai_dynUnet_2D/persistent_cache")
      = Ok ().
Proof.
  refine (required_keys example_sys (example_config "Dice_Only")
            {| seg_labels := VList [VInt 1]; nr_out_channels := 1;
               patch_size := VList [VInt 64; VInt 64; VInt 1];
               spacing := VList [VFloat 1; VFloat 1];
               model_to_load := VNone; seed := VNone; determinism := [];
               out_model_dir := "out/2020-11-01_12-00-00_monai_dynUnet_2D";
               out_cache_dir :=
                 VStr "out/2020-11-01_12-00-00_monai_dynUnet_2D/persistent_cache" |} _).
  vm_compute. reflexivity.
Defined.

(** X16. The optional keys, when they are there.  ['seg_labels'] gives the
    labels and their number the output channels; a ['manual_seed'] other
    than [None] (0 as well) is handed to [set_determinism], once; a
    ['model_to_load'] other than [None] exists and is loaded by one
    [CheckpointLoader], appended to the five handlers; ['cache_dir'] is
    taken as it is, [None] included. *)
Theorem optional_keys_configured (sys : os)
    (config_info : gmap string (gmap string value))
    (training output : gmap string value) (c : configuration) :
  config_info !! "training" = Some training →
  config_info !! "output" = Some output →
  read_configuration sys config_info = Ok c →
  (∀ v, training !! "seg_labels" = Some v →
        seg_labels c = v ∧ len v = Ok (nr_out_channels c))
  ∧ (∀ v, training !! "manual_seed" = Some v → v ≠ VNone →
          seed c = v ∧ determinism c = [v])
  ∧ (∀ v, training !! "model_to_load" = Some v → v ≠ VNone →
          model_to_load c = v
          ∧ path_exists sys v = Ok true
          ∧ train_handlers (model_to_load c)
            = [LrScheduleHandler; ValidationHandler; StatsHandler;
               TensorBoardStatsHandler; CheckpointSaver; CheckpointLoader v])
  ∧ (∀ v, output !! "cache_dir" = Some v → out_cache_dir c = v).
Proof.
  intros Ht Ho H. apply read_configuration_steps in H
    as (training' & output' & inplane & Ht' & Ho' & Hseg & Hlen & _ & _ & _ & Hmodel
        & Hseed & Hdet & _ & Hcache & _).
  rewrite Ht in Ht'. rewrite Ho in Ho'. injection Ht' as <-. injection Ho' as <-.
  split; [|split; [|split]].
  - intros v Hv. rewrite Hseg in *. unfold seg_labels_of in *. by rewrite Hv in *.
  - intros v Hv Hn. rewrite Hdet, Hseed. unfold seed_of. rewrite Hv.
    by destruct v.
  - intros v Hv Hn. unfold model_to_load_of in Hmodel. rewrite Hv in Hmodel.
    assert (is_none v = false) as Hnone by (by destruct v).
    rewrite Hnone in Hmodel.
    destruct (path_exists sys v) as [[|]| |]; try done.
    cbn in Hmodel. injection Hmodel as <-.
    repeat split. unfold train_handlers. by rewrite Hnone.
  - intros v Hv. rewrite Hcache. unfold out_cache_dir_of. by rewrite Hv.
Qed.

Lemma optional_keys_configured_witness :
  ∃ c, read_configuration example_sys_with_model example_config_full = Ok c
       ∧ seg_labels c = VList [VInt 1; VInt 2] ∧ nr_out_channels c = 2%nat
       ∧ seed c = VInt 0 ∧ determinism c = [VInt 0]
       ∧ model_to_load c = VStr "model.pt"
       ∧ out_cache_dir c = VStr "cache".
Proof.
  eexists. split; [vm_compute; reflexivity|].
  pose proof (optional_keys_configured example_sys_with_model example_config_full
                _ _ _ eq_refl eq_refl eq_refl) as (Hseg & Hseed & Hmodel & Hcache).
  destruct (Hseg _ eq_refl) as [Hs Hn].
  destruct (Hseed (VInt 0) eq_refl) as [Hsd Hdet]; [done|].
  destruct (Hmodel (VStr "model.pt") eq_refl) as (Hm & _ & _); [done|].
  pose proof (Hcache _ eq_refl) as Hc.
  split; [exact Hs|]. split; [reflexivity|].
  split; [exact Hsd|]. split; [exact Hdet|]. split; [exact Hm | exact Hc].
Defined.

(** X17. A model to load that is not there stops the run: whatever the
    output section holds, whether or not the cache directory can be made and
    whatever the two file lists are, [run_training] raises the
    [FileNotFoundError] of the model. *)
Theorem missing_model_stops_run (sys : os) (train_file_list valid_file_list : string)
    (config_info : gmap string (gmap string value))
    (training : gmap string value) (inplane_size : list value)
    (spacing model : value) (nr : nat) :
  config_info !! "training" = Some training →
  len (seg_labels_of training) = Ok nr →
  training !! "inplane_size" = Some (VList inplane_size) →
  training !! "spacing" = Some spacing →
  training !! "model_to_load" = Some model →
  model ≠ VNone →
  path_exists sys model = Ok false →
  read_configuration sys config_info = Raise (FileNotFoundError (Missing_model model))
  ∧ run_training_setup sys train_file_list valid_file_list config_info
    = Raise (FileNotFoundError (Missing_model model)).
Proof.
  intros Ht Hlen Hin Hsp Hm Hn Hex.
  assert (read_configuration sys config_info
          = Raise (FileNotFoundError (Missing_model model))) as H.
  { unfold read_configuration, getitem. rewrite Ht. cbn. rewrite Hlen. cbn.
    rewrite Hin. cbn. rewrite Hsp. cbn.
    unfold model_to_load_of. rewrite Hm.
    assert (is_none model = false) as -> by (by destruct model).
    by rewrite Hex. }
  split; [done|]. unfold run_training_setup. by rewrite H.
Qed.

Lemma missing_model_stops_run_witness :
  read_configuration example_sys example_config_full
  = Raise (FileNotFoundError (Missing_model (VStr "model.pt")))
  ∧ run_training_setup example_sys "train.txt" "missing.txt" example_config_full
    = Raise (FileNotFoundError (Missing_model (VStr "model.pt"))).
Proof.
  eapply (missing_model_stops_run example_sys "train.txt" "missing.txt"
            example_config_full);
    [vm_compute; reflexivity | reflexivity | reflexivity | reflexivity
    | reflexivity | done | reflexivity].
Defined.

(** *** The trainer: further properties *)

Section TrainerMore.

Context (loss_function : tensor → tensor → Q).
Context (interpolate : tensor → list nat → tensor).

Lemma half_power_succ (n : nat) :
  (1 # 2) ^ Z.of_nat (S n) == (1 # 2) * (1 # 2) ^ Z.of_nat n.
Proof.
  rewrite Nat2Z.inj_succ, <- Z.add_1_l, Qpower_plus by done. reflexivity.
Qed.

(** A sum of terms under the weights [0.5 ^ i] stays under twice the bound
    of the terms. *)
Lemma sum_below_geometric (B : Q) (f : nat → Q) (n : nat) :
  (∀ i, 0 <= f i ∧ f i <= (1 # 2) ^ Z.of_nat i * B) →
  0 <= sum_below n f ∧ sum_below n f + 2 * (1 # 2) ^ Z.of_nat n * B <= 2 * B.
Proof.
  intros Hf. induction n as [|n [IH0 IH]].
  - simpl. change ((1 # 2) ^ 0) with 1. lra.
  - cbn [sum_below]. destruct (Hf n) as [Hn0 Hn].
    rewrite half_power_succ. set (w := (1 # 2) ^ Z.of_nat n) in *. lra.
Qed.

Lemma head_term_bounds (B : Q) (preds : list tensor) (label : tensor) (i : nat) :
  0 <= B → (∀ p l, 0 <= loss_function p l ∧ loss_function p l <= B) →
  0 <= head_term loss_function interpolate preds label i
  ∧ head_term loss_function interpolate preds label i <= (1 # 2) ^ Z.of_nat i * B.
Proof.
  intros HB Hl. unfold head_term.
  assert (0 <= (1 # 2) ^ Z.of_nat i) as Hw by (by apply Qpower_0_le).
  destruct (preds !! i) as [head|].
  - destruct (Hl head (head_label interpolate label head i)) as [H0 H1].
    split; [by apply Qmult_le_0_compat|].
    rewrite !(Qmult_comm ((1 # 2) ^ Z.of_nat i)). by apply Qmult_le_compat_r.
  - split; [apply Qle_refl | by apply Qmult_le_0_compat].
Qed.

End TrainerMore.

(** X18. The deep-supervision loss stays within twice the range of the loss
    function: if every value of [loss_function] lies between 0 and [B], the
    loss of an iteration lies between 0 and [2 * B], however many heads the
    network has. *)
Theorem deep_supervision_loss_bounded
    (loss_function : tensor → tensor → Q)
    (interpolate : tensor → list nat → tensor)
    (B : Q) (preds : list tensor) (label : tensor) :
  (∀ p l, 0 <= loss_function p l ∧ loss_function p l <= B) →
  0 <= _compute_loss loss_function interpolate preds label
  ∧ _compute_loss loss_function interpolate preds label <= 2 * B.
Proof.
  intros Hl. rewrite compute_loss_heads. unfold deep_supervision_loss.
  assert (0 <= B) as HB.
  { destruct (Hl (Scalar 0) (Scalar 0)). by eapply Qle_trans. }
  destruct (sum_below_geometric B (head_term loss_function interpolate preds label)
              (length preds)) as [H0 H1].
  { intros i. by apply head_term_bounds. }
  split; [done|].
  assert (0 <= (1 # 2) ^ Z.of_nat (length preds) * B) as Hw.
  { apply Qmult_le_0_compat; [by apply Qpower_0_le | done]. }
  lra.
Qed.

Lemma deep_supervision_loss_bounded_witness :
  let loss_function (p l : tensor) :=
    match p with Scalar x => if Qle_bool 0 x && Qle_bool x 1 then x else 0 | _ => 0 end in
  let interpolate (l : tensor) (size : list nat) := l in
  0 <= _compute_loss loss_function interpolate [Scalar 1; Scalar (1 # 2)] (Scalar 0)
  ∧ _compute_loss loss_function interpolate [Scalar 1; Scalar (1 # 2)] (Scalar 0) <= 2 * 1.
Proof.
  intros loss_function interpolate. apply deep_supervision_loss_bounded.
  intros p l. unfold loss_function. destruct p as [x|]; [|split; done].
  destruct (Qle_bool 0 x) eqn:E0; [|split; done].
  destruct (Qle_bool x 1) eqn:E1; [|split; done].
  apply Qle_bool_iff in E0, E1. done.
Defined.

(** X19. One more head adds one more term and changes none of the others:
    for a non-empty list of heads, a head appended at position [n] adds
    [0.5 ^ n] times its loss against the label resized to its own spatial
    shape. *)
Theorem deep_supervision_append_head
    (loss_function : tensor → tensor → Q)
    (interpolate : tensor → list nat → tensor)
    (preds : list tensor) (head label : tensor) :
  preds ≠ [] →
  _compute_loss loss_function interpolate (preds ++ [head]) label
  = _compute_loss loss_function interpolate preds label
    + (1 # 2) ^ Z.of_nat (length preds)
      * loss_function head (interpolate label (drop 2 (shape head))).
Proof.
  intros Hne. rewrite !compute_loss_heads. unfold deep_supervision_loss.
  rewrite length_app, Nat.add_1_r. cbn [sum_below]. f_equal.
  - apply sum_below_ext. intros i Hi. unfold head_term. by rewrite lookup_app_l.
  - unfold head_term. rewrite list_lookup_middle by done.
    destruct preds; [done|]. reflexivity.
Qed.

Lemma deep_supervision_append_head_witness :
  let loss_function (p l : tensor) :=
    match p, l with Scalar x, Scalar y => x * y | _, _ => 0 end in
  let interpolate (l : tensor) (size : list nat) := l in
  _compute_loss loss_function interpolate ([Scalar 4; Scalar 8] ++ [Scalar 16]) (Scalar 1)
  = _compute_loss loss_function interpolate [Scalar 4; Scalar 8] (Scalar 1)
    + (1 # 2) ^ Z.of_nat (length [Scalar 4; Scalar 8])
      * loss_function (Scalar 16) (interpolate (Scalar 1) (drop 2 (shape (Scalar 16)))).
Proof. intros loss_function interpolate. by apply deep_supervision_append_head. Defined.

(** *** The evaluator: further properties *)

Section EnsembleFacts.

Lemma tensor_equiv_refl (t : tensor) : tensor_equiv t t.
Proof.
  induction t as [x | items IH] using tensor_induction; constructor; [done|].
  induction IH; by constructor.
Qed.

(** Four times a prediction, divided by 4, is the prediction. *)
Lemma mean_of_four_copies (t : tensor) :
  tensor_equiv (tensor_div (add4 t t t t) 4) t.
Proof.
  unfold add4. induction t as [x | items IH] using tensor_induction; simpl.
  - constructor. field.
  - constructor. induction IH as [|t items Ht Hitems IH]; simpl; by constructor.
Qed.

End EnsembleFacts.

(** X20. On a network that commutes with the three flips (flipping the input
    flips its output) the ensemble changes nothing: the prediction returned
    is the plain inference on the input. *)
Theorem ensemble_of_equivariant_inferer {network batch : Type}
    (inferer : tensor → network → tensor)
    (prepare_batch : batch → tensor * tensor)
    (self_network : network) (self_amp : bool) (batchdata : batch) :
  let x := (prepare_batch batchdata).1 in
  (∀ dims, dims ∈ [[2]; [3]; [2; 3]]%nat →
           inferer (flip x dims) self_network = flip (inferer x self_network) dims) →
  tensor_equiv
    (pred (evaluator_iteration inferer prepare_batch self_network self_amp batchdata))
    (inferer x self_network).
Proof.
  intros x Heq.
  assert (pred (evaluator_iteration inferer prepare_batch self_network self_amp batchdata)
          = tensor_div (add4 (inferer x self_network) (inferer x self_network)
                          (inferer x self_network) (inferer x self_network)) 4) as ->.
  { unfold evaluator_iteration, x, _compute_pred, add4 in *.
    destruct (prepare_batch batchdata) as [inputs targets]. simpl in *.
    rewrite !Heq by (rewrite !elem_of_cons; tauto).
    unfold flip. rewrite !flip_from_involutive. by destruct self_amp. }
  apply mean_of_four_copies.
Qed.

Lemma ensemble_of_equivariant_inferer_witness :
  tensor_equiv
    (pred (evaluator_iteration (λ (t : tensor) (_ : ()), tensor_add t t) (λ b, b) () false
             (example_image, Scalar 0)))
    (tensor_add example_image example_image).
Proof.
  apply (ensemble_of_equivariant_inferer (λ (t : tensor) (_ : ()), tensor_add t t)
           (λ b : tensor * tensor, b) () false (example_image, Scalar 0)).
  intros dims Hd. rewrite !elem_of_cons, elem_of_nil in Hd.
  destruct Hd as [-> | [-> | [-> | []]]]; reflexivity.
Defined.


Section FlipAlgebra.

(** Flips along two sets of dimensions commute. *)
Lemma flip_from_commute (dims1 dims2 : list nat) (t : tensor) :
  ∀ depth, flip_from depth dims1 (flip_from depth dims2 t)
           = flip_from depth dims2 (flip_from depth dims1 t).
Proof.
  induction t as [x | items IH] using tensor_induction; intros depth; simpl;
    [done|]. f_equal.
  assert (flip_from (S depth) dims1 <$> (flip_from (S depth) dims2 <$> items)
          = flip_from (S depth) dims2 <$> (flip_from (S depth) dims1 <$> items)) as E.
  { rewrite <- !list_fmap_compose. apply Forall_fmap_ext.
    eapply Forall_impl; [exact IH|]. intros t Ht. apply Ht. }
  destruct (bool_decide (depth ∈ dims1)), (bool_decide (depth ∈ dims2));
    rewrite ?fmap_reverse, E; done.
Qed.

Lemma flip_2_2 t : flip_2 (flip_2 t) = t.
Proof. apply flip_from_involutive. Qed.
Lemma flip_3_3 t : flip_3 (flip_3 t) = t.
Proof. apply flip_from_involutive. Qed.
Lemma flip_23_23 t : flip_23 (flip_23 t) = t.
Proof. apply flip_from_involutive. Qed.
Lemma flip_2_3 t : flip_2 (flip_3 t) = flip_23 t.
Proof. symmetry. apply flip_from_both. Qed.
Lemma flip_3_2 t : flip_3 (flip_2 t) = flip_23 t.
Proof. unfold flip. rewrite flip_from_commute. apply flip_2_3. Qed.
Lemma flip_2_23 t : flip_2 (flip_23 t) = flip_3 t.
Proof. by rewrite <- flip_2_3, flip_2_2. Qed.
Lemma flip_23_2 t : flip_23 (flip_2 t) = flip_3 t.
Proof. by rewrite <- flip_3_2, flip_2_2. Qed.
Lemma flip_3_23 t : flip_3 (flip_23 t) = flip_2 t.
Proof. by rewrite <- flip_3_2, flip_3_3. Qed.
Lemma flip_23_3 t : flip_23 (flip_3 t) = flip_2 t.
Proof. by rewrite <- flip_2_3, flip_3_3. Qed.

End FlipAlgebra.

Create Rewrite HintDb flips.
#[export] Hint Rewrite flip_2_2 flip_3_3 flip_23_23 flip_2_3 flip_3_2
  flip_2_23 flip_23_2 flip_3_23 flip_23_3 : flips.


Section EnsembleSymmetry.

Context {network batch : Type}.
Context (inferer : tensor → network → tensor).
Context (prepare_batch : batch → tensor * tensor).
Context (self_network : network) (self_amp : bool).

Local Abbreviation infer t := (inferer t self_network).

(** The prediction, as the mean of the four. *)
Lemma evaluator_pred (batchdata : batch) :
  let x := (prepare_batch batchdata).1 in
  pred (evaluator_iteration inferer prepare_batch self_network self_amp batchdata)
  = tensor_div
      (add4 (infer x) (flip_2 (infer (flip_2 x))) (flip_3 (infer (flip_3 x)))
         (flip_23 (infer (flip_23 x))))
      4.
Proof.
  unfold evaluator_iteration, _compute_pred, add4.
  destruct (prepare_batch batchdata) as [inputs targets]. by destruct self_amp.
Qed.

End EnsembleSymmetry.

(** X21. The ensemble of a flipped input averages the same four
    predictions, flipped, in another order.  Let [a], [b], [c], [d] be the
    four predictions that the evaluator adds up for a batch, in this order.
    For a batch whose input is that input flipped along dimension 2 the
    four added up are [b], [a], [d], [c], each flipped along dimension 2;
    flipped along dimension 3 they are [c], [d], [a], [b], and flipped along
    both [d], [c], [b], [a], each flipped the same way.  This holds for any
    network and needs nothing of the addition: whether the two means are
    equal is a matter of the order of the additions alone. *)
Theorem ensemble_terms_follow_flips {network batch : Type}
    (inferer : tensor → network → tensor)
    (prepare_batch : batch → tensor * tensor)
    (self_network : network) (self_amp : bool)
    (batchdata flipped : batch) (dims : list nat) :
  let x := (prepare_batch batchdata).1 in
  let a := inferer x self_network in
  let b := flip (inferer (flip x [2%nat]) self_network) [2%nat] in
  let c := flip (inferer (flip x [3%nat]) self_network) [3%nat] in
  let d := flip (inferer (flip x [2%nat; 3%nat]) self_network) [2%nat; 3%nat] in
  let prediction batchdata :=
    pred (evaluator_iteration inferer prepare_batch self_network self_amp batchdata) in
  (prepare_batch flipped).1 = flip x dims →
  prediction batchdata = tensor_div (add4 a b c d) 4
  ∧ (dims = [2%nat] →
     prediction flipped
     = tensor_div (add4 (flip b dims) (flip a dims) (flip d dims) (flip c dims)) 4)
  ∧ (dims = [3%nat] →
     prediction flipped
     = tensor_div (add4 (flip c dims) (flip d dims) (flip a dims) (flip b dims)) 4)
  ∧ (dims = [2%nat; 3%nat] →
     prediction flipped
     = tensor_div (add4 (flip d dims) (flip c dims) (flip b dims) (flip a dims)) 4).
Proof.
  intros x a b c d prediction Hflipped. subst prediction a b c d. cbn beta.
  rewrite !evaluator_pred. cbn zeta. rewrite Hflipped. fold x.
  split; [done|].
  split; [|split]; intros ->; autorewrite with flips; reflexivity.
Qed.

Lemma ensemble_terms_follow_flips_witness :
  let inferer (t : tensor) (_ : ()) :=
    match t with
    | Tensor [Tensor [Tensor [Tensor [Scalar a; Scalar b]; Tensor [Scalar c; Scalar d]]]] =>
        Tensor [Tensor [Tensor [Tensor [Scalar a; Scalar (a + b)];
                                Tensor [Scalar (a + c); Scalar d]]]]
    | _ => t
    end in
  let x := example_image in
  let a := inferer x () in
  let b := flip (inferer (flip x [2%nat]) ()) [2%nat] in
  let c := flip (inferer (flip x [3%nat]) ()) [3%nat] in
  let d := flip (inferer (flip x [2%nat; 3%nat]) ()) [2%nat; 3%nat] in
  pred (evaluator_iteration inferer (λ b, b) () false (flip x [2%nat], Scalar 0))
  = tensor_div (add4 (flip b [2%nat]) (flip a [2%nat]) (flip d [2%nat]) (flip c [2%nat])) 4.
Proof.
  intros inferer x a b c d.
  exact (proj1 (proj2 (ensemble_terms_follow_flips inferer (λ b : tensor * tensor, b)
                         () false (example_image, Scalar 0)
                         (flip example_image [2%nat], Scalar 0) [2%nat] eq_refl))
           eq_refl).
Defined.

(** *** The main block *)

Section MainFacts.

Context (h : Main.host) (args : Main.arguments).

Lemma not_found_or_empty_false (path : string) :
  Main.not_found_or_empty h path = false
  ↔ isfile (Main.host_os h) path = true ∧ Main.getsize h path ≠ 0%Z.
Proof.
  unfold Main.not_found_or_empty.
  rewrite orb_false_iff, negb_false_iff, Z.eqb_neq. tauto.
Qed.

Lemma not_found_or_empty_true (path : string) :
  Main.not_found_or_empty h path = true
  ↔ isfile (Main.host_os h) path = false ∨ Main.getsize h path = 0%Z.
Proof.
  unfold Main.not_found_or_empty.
  rewrite orb_true_iff, negb_true_iff, Z.eqb_eq. tauto.
Qed.

(** [run_training] got as far as the lists only with a configuration read. *)
Lemma run_training_setup_inv (sys : os) (train_file_list valid_file_list : string)
    (config_info : gmap string (gmap string value)) (s : setup) :
  run_training_setup sys train_file_list valid_file_list config_info = Ok s →
  read_configuration sys config_info = Ok (config s)
  ∧ create_data_list_of_dictionaries sys train_file_list = Ok (train_files s)
  ∧ create_data_list_of_dictionaries sys valid_file_list = Ok (val_files s).
Proof.
  unfold run_training_setup.
  destruct (read_configuration sys config_info) as [c| |]; [cbn|done..].
  destruct (create_data_list_of_dictionaries sys train_file_list) as [t| |]; [cbn|done..].
  destruct (create_data_list_of_dictionaries sys valid_file_list) as [v| |]; [cbn|done..].
  by intros [= <-].
Qed.

(** What [run_training] finds under ['output'] when the block calls it. *)
Lemma run_inv (yaml : gmap string (gmap string value)) (s : setup) :
  Main.run h args yaml = Ok s →
  ∃ output output',
    yaml !! "output" = Some output
    ∧ output' !! "out_dir" = Some (VStr (Main.out_folder args))
    ∧ output' !! "out_postfix" = Some (VStr (Main.out_postfix args))
    ∧ output' !! "cache_dir"
      = match Main.cache_dir args with
        | Some cache_dir => Some (VStr cache_dir)
        | None => output !! "cache_dir"
        end
    ∧ run_training_setup (Main.host_os h) (Main.train_files_list args)
        (Main.valid_files_list args) (<["output" := output']> yaml) = Ok s.
Proof.
  unfold Main.run, getitem.
  destruct (yaml !! "output") as [output|]; [cbn|done].
  destruct (path_exists _ _) as [found| |]; [cbn|done..].
  destruct (if found then _ else _) as [[]| |]; [cbn|done..].
  intros Hrun.
  set (updated := <["out_dir" := VStr (Main.out_folder args)]>
                    (<["out_postfix" := VStr (Main.out_postfix args)]> output)) in *.
  exists output,
    (match Main.cache_dir args with
     | Some cache_dir => <["cache_dir" := VStr cache_dir]> updated
     | None => updated
     end).
  subst updated. split; [done|].
  split; [|split; [|split; [|exact Hrun]]].
  - destruct (Main.cache_dir args).
    + rewrite lookup_insert_ne by done. apply lookup_insert_eq.
    + apply lookup_insert_eq.
  - destruct (Main.cache_dir args).
    + do 2 (rewrite lookup_insert_ne by done). apply lookup_insert_eq.
    + rewrite lookup_insert_ne by done. apply lookup_insert_eq.
  - destruct (Main.cache_dir args).
    + apply lookup_insert_eq.
    + by do 2 (rewrite lookup_insert_ne by done).
Qed.

End MainFacts.

(** X22. The command line decides where the results go.  When the main
    block gets [run_training] past the two file lists, the lists are
    non-empty files, the model directory is [--out_folder] joined with the
    time stamp, ['_'] and [--out_postfix], whatever the configuration file
    has under ['out_dir'] and ['out_postfix'], and the cache directory is
    [--cache_dir] if that is given, else the ['cache_dir'] of the
    configuration file if it has one, else ['persistent_cache'] in the model
    directory. *)
Theorem command_line_sets_output (h : Main.host) (args : Main.arguments) (s : setup) :
  Main.main h args = inr (Ok s) →
  (isfile (Main.host_os h) (Main.train_files_list args) = true
   ∧ Main.getsize h (Main.train_files_list args) ≠ 0%Z)
  ∧ (isfile (Main.host_os h) (Main.valid_files_list args) = true
     ∧ Main.getsize h (Main.valid_files_list args) ≠ 0%Z)
  ∧ out_model_dir (config s)
    = Str.path_join (Main.out_folder args)
        (now (Main.host_os h) +:+ "_" +:+ Main.out_postfix args)
  ∧ ∃ yaml output,
      Main.load h (Main.config_file_of h args) = Ok yaml
      ∧ yaml !! "output" = Some output
      ∧ out_cache_dir (config s)
        = match Main.cache_dir args, output !! "cache_dir" with
          | Some cache_dir, _ => VStr cache_dir
          | None, Some cache_dir => cache_dir
          | None, None => VStr (Str.path_join (out_model_dir (config s)) "persistent_cache")
          end.
Proof.
  unfold Main.main.
  destruct (Main.not_found_or_empty h (Main.train_files_list args)) eqn:Ht; [done|].
  destruct (Main.not_found_or_empty h (Main.valid_files_list args)) eqn:Hv; [done|].
  destruct (negb _); [done|].
  apply not_found_or_empty_false in Ht, Hv.
  intros [= Hrun].
  destruct (Main.load h (Main.config_file_of h args)) as [yaml| |] eqn:Hload; [|done..].
  cbn in Hrun.
  apply run_inv in Hrun as (output & output' & Hout & Hdir & Hpost & Hcache & Hrun).
  apply run_training_setup_inv in Hrun as (Hread & _ & _).
  apply read_configuration_inv in Hread
    as (_ & output'' & _ & Hout' & _ & _ & _ & _ & _ & Hmodel & Hc).
  rewrite lookup_insert_eq in Hout'. injection Hout' as <-.
  apply out_model_dir_of_inv in Hmodel as (d & p & Hd & Hp & Hmodel).
  rewrite Hdir in Hd. rewrite Hpost in Hp. injection Hd as <-. injection Hp as <-.
  split; [done|]. split; [done|]. split; [done|].
  exists yaml, output. split; [done|]. split; [done|].
  rewrite Hc. unfold out_cache_dir_of. rewrite Hcache.
  by destruct (Main.cache_dir args).
Qed.

Lemma command_line_sets_output_witness :
  ∃ s, Main.main example_host example_arguments = inr (Ok s)
       ∧ out_model_dir (config s) = "results/2020-11-01_12-00-00_run1"
       ∧ out_cache_dir (config s)
         = VStr "results/2020-11-01_12-00-00_run1/persistent_cache".
Proof.
  assert (∃ s, Main.main example_host example_arguments = inr (Ok s)) as [s Hs]
    by (vm_compute; eauto).
  exists s. split; [exact Hs|].
  destruct (command_line_sets_output example_host example_arguments s Hs)
    as (_ & _ & Hmodel & yaml & output & Hload & Hout & Hcache).
  split; [exact Hmodel|].
  injection Hload as <-.
  assert (output = {[ "out_dir" := VStr "out"; "out_postfix" := VStr "monai_dynUnet_2D" ]})
    as -> by (vm_compute in Hout; by injection Hout).
  rewrite Hcache, Hmodel. reflexivity.
Defined.

(** X23. The errors of the main block itself, in the order of its checks: a
    training list that is not a file or is empty; with that one in order, a
    validation list that is not a file or is empty; with both in order, a
    configuration file (the one given, else the one of the package) that is
    not a file.  In every other case the block goes on to load the
    configuration. *)
Theorem main_block_errors (h : Main.host) (args : Main.arguments) :
  let bad path := isfile (Main.host_os h) path = false ∨ Main.getsize h path = 0%Z in
  let good path := isfile (Main.host_os h) path = true ∧ Main.getsize h path ≠ 0%Z in
  let train := Main.train_files_list args in
  let valid := Main.valid_files_list args in
  let config_file := Main.config_file_of h args in
  (∀ what,
     Main.main h args = inl what ↔
       (what = Main.Training_file_not_found_or_empty train ∧ bad train)
       ∨ (what = Main.Validation_file_not_found_or_empty valid ∧ good train ∧ bad valid)
       ∨ (what = Main.Config_file_not_found config_file
          ∧ good train ∧ good valid ∧ isfile (Main.host_os h) config_file = false))
  ∧ (∀ r,
       Main.main h args = inr r ↔
         good train ∧ good valid ∧ isfile (Main.host_os h) config_file = true
         ∧ r = Main.load h config_file ≫= Main.run h args).
Proof.
  intros bad good train valid config_file. subst bad good train valid config_file.
  cbn beta. unfold Main.main.
  pose proof (not_found_or_empty_true h (Main.train_files_list args)) as Ht.
  pose proof (not_found_or_empty_false h (Main.train_files_list args)) as Ht'.
  pose proof (not_found_or_empty_true h (Main.valid_files_list args)) as Hv.
  pose proof (not_found_or_empty_false h (Main.valid_files_list args)) as Hv'.
  destruct (Main.not_found_or_empty h (Main.train_files_list args));
    [|destruct (Main.not_found_or_empty h (Main.valid_files_list args));
      [|destruct (isfile (Main.host_os h) (Main.config_file_of h args))]]; cbn.
  all: split; [intros what|intros r]; split.
  all: try (intros [= <-]); intuition (try congruence).
Qed.
